(* ========================================================================== *)
(*  NSFW batch classifier (classify_batch.py): a shallow embedding of the     *)
(*  score fusion, tier rules, signal post-processing, perceptual-hash         *)
(*  deduplication and the batch report, with proofs of their properties.      *)
(*                                                                            *)
(*  Modelling conventions.                                                    *)
(*  - Python floats are modelled by exact rationals (Q); the pixel-level      *)
(*    analysis done by OpenCV / numpy / the neural models is an input: each   *)
(*    extractor receives the numbers the libraries return (detections, face   *)
(*    boxes, block counts, skin ratios, Laplacian variances) and the code of  *)
(*    this file computes what classify_batch.py computes from them.           *)
(*  - A library call that may raise is a [call]: [Raises msg] or a result.   *)
(*  - Python dicts built by the code (per-image result, stats, report) are    *)
(*    association lists [pydict] in insertion order.                          *)
(* ========================================================================== *)

From stdpp Require Import base list gmap sets strings pretty.
From Stdlib Require Import QArith Qround Qabs ZArith Lia.

Open Scope string_scope.
#[local] Set Warnings "-register-all".

(* -------------------------------------------------------------------------- *)
(** * Python values and dicts                                                  *)
(* -------------------------------------------------------------------------- *)

Inductive pyval :=
| VBool (b : bool)
| VInt (z : Z)
| VFloat (q : Q)
| VStr (s : string)
| VDict (d : list (string * pyval)).

Abbreviation pydict := (list (string * pyval)).

(** [d[k]] / [d.get(k)]: the value stored under [k], if any. *)
Fixpoint dict_get (d : pydict) (k : string) : option pyval :=
  match d with
  | [] => None
  | (k', v) :: d' => if String.eqb k k' then Some v else dict_get d' k
  end.

(** [d[k] = v]: overwrite in place when present, append otherwise. *)
Fixpoint dict_set (d : pydict) (k : string) (v : pyval) : pydict :=
  match d with
  | [] => [(k, v)]
  | (k', v') :: d' =>
      if String.eqb k k' then (k', v) :: d' else (k', v') :: dict_set d' k v
  end.

Definition dict_keys (d : pydict) : list string := map fst d.

(** Python truthiness of a string (non-empty) and of a looked-up flag. *)
Definition str_truthy (s : string) : bool := negb (String.eqb s "").

(* -------------------------------------------------------------------------- *)
(** * Float comparisons, max/min, round and fixed-point formatting            *)
(* -------------------------------------------------------------------------- *)

Definition Qltb (a b : Q) : bool := negb (Qle_bool b a).

(** Python [max(a, b)] / [min(a, b)] on two numbers: the first argument is
    returned unless the second is strictly larger (smaller). *)
Definition py_max (a b : Q) : Q := if Qltb a b then b else a.
Definition py_min (a b : Q) : Q := if Qltb b a then b else a.

(** Round-half-to-even of a rational to an integer (Python's rounding). *)
Definition round_half_even (x : Q) : Z :=
  let fl := Qfloor x in
  let fr := x - inject_Z fl in
  if Qltb fr (1#2) then fl
  else if Qeq_bool fr (1#2) then (if Z.even fl then fl else fl + 1)
  else fl + 1.

(** [round(x, 4)] *)
Definition round4 (x : Q) : Q := round_half_even (x * 10000) # 10000.

(** [round(x, 2)] *)
Definition round2 (x : Q) : Q := round_half_even (x * 100) # 100.

(** Left-pad with zeros to width [w]. *)
Fixpoint zero_pad_go (fuel w : nat) (s : string) : string :=
  match fuel with
  | O => s
  | S fuel' => if (String.length s <? w)%nat then zero_pad_go fuel' w ("0" +:+ s) else s
  end.

Definition zero_pad (w : nat) (s : string) : string := zero_pad_go w w s.

(** [f"{x:.<d>f}"] *)
Definition fmt_fixed (d : nat) (x : Q) : string :=
  let scale := (10 ^ Z.of_nat d)%Z in
  let r := round_half_even (x * inject_Z scale) in
  let a := Z.abs r in
  let sign := if Qltb x 0 then "-" else "" in
  let ip := pretty (a / scale)%Z in
  match d with
  | O => sign +:+ ip
  | S _ => sign +:+ ip +:+ "." +:+ zero_pad d (pretty (a mod scale)%Z)
  end.

(** [f"{x:.<d>%}"] *)
Definition fmt_percent (d : nat) (x : Q) : string := fmt_fixed d (x * 100) +:+ "%".

(** [f"{x}"] of a threshold constant; the default constants print as Python
    prints them (0.15, 0.3, 0.1); other values print with 4 decimals. *)
Definition fmt_const (x : Q) : string :=
  if Qeq_bool x (15#100) then "0.15"
  else if Qeq_bool x (3#10) then "0.3"
  else if Qeq_bool x (1#10) then "0.1"
  else fmt_fixed 4 x.

(* -------------------------------------------------------------------------- *)
(** * Configuration (module-level thresholds, set once by main)               *)
(* -------------------------------------------------------------------------- *)

Record thresholds := {
  SUPER_SAFE_THRESHOLD : Q;
  NSFW_THRESHOLD : Q;
  MIN_FACE_SCORE : Q
}.

Definition default_thresholds : thresholds := {|
  SUPER_SAFE_THRESHOLD := 15 # 100;
  NSFW_THRESHOLD := 3 # 10;
  MIN_FACE_SCORE := 1 # 10
|}.

Definition PHASH_THRESHOLD : Z := 8.

Definition NSFW_LABELS : list string :=
  ["FEMALE_BREAST_EXPOSED"; "FEMALE_GENITALIA_EXPOSED"; "MALE_GENITALIA_EXPOSED";
   "BUTTOCKS_EXPOSED"; "ANUS_EXPOSED"; "FEMALE_BREAST_COVERED"; "BELLY_EXPOSED"].

(* -------------------------------------------------------------------------- *)
(** * Score fusion (NSFWClassifier.classify, combined NSFW score)             *)
(* -------------------------------------------------------------------------- *)

Definition fuse (falconsai_score nudenet_score : Q) : Q :=
  if Qltb nudenet_score (1#4) then falconsai_score * (3#10)
  else if Qltb (3#5) nudenet_score then nudenet_score
  else nudenet_score * (7#10) + falconsai_score * (3#10).

(* -------------------------------------------------------------------------- *)
(** * Library calls                                                           *)
(* -------------------------------------------------------------------------- *)

(** The outcome of a call into a model or into OpenCV/numpy: it raises an
    exception (with its message) or returns a value. *)
Inductive call (A : Type) :=
| Raises (msg : string)
| Returns (a : A).
Arguments Raises {A} _.
Arguments Returns {A} _.

(** [str.lower()] on ASCII text. *)
Definition ascii_lower (c : Ascii.ascii) : Ascii.ascii :=
  let n := Ascii.nat_of_ascii c in
  if (65 <=? n)%nat && (n <=? 90)%nat then Ascii.ascii_of_nat (n + 32) else c.

Fixpoint str_lower (s : string) : string :=
  match s with
  | EmptyString => EmptyString
  | String c s' => String (ascii_lower c) (str_lower s')
  end.

Definition str_in (s : string) (l : list string) : bool := existsb (String.eqb s) l.

(* -------------------------------------------------------------------------- *)
(** * Signal extractors                                                       *)
(* -------------------------------------------------------------------------- *)

(** _score_falconsai: the score of the FIRST result whose lower-cased label
    is one of nsfw/porn/sexy/hentai. *)
Fixpoint falconsai_first (results : list (string * Q)) : Q :=
  match results with
  | [] => 0
  | (label, score) :: rs =>
      if str_in (str_lower label) ["nsfw"; "porn"; "sexy"; "hentai"] then score
      else falconsai_first rs
  end.

Definition score_falconsai (model_loaded : bool) (out : call (list (string * Q))) : Q :=
  if negb model_loaded then 0 else
  match out with
  | Raises _ => 0
  | Returns results => falconsai_first results
  end.

(** _score_nudenet: maximum confidence over detections with a label in
    NSFW_LABELS, 0 when there is none. *)
Definition score_nudenet (detector_loaded : bool) (out : call (list (string * Q))) : Q :=
  if negb detector_loaded then 0 else
  match out with
  | Raises _ => 0
  | Returns [] => 0
  | Returns detections =>
      fold_left (fun m '(cls, score) =>
                   if str_in cls NSFW_LABELS then py_max m score else m)
                detections 0
  end.

(** A face box [(x, y, w, h)] in pixels. *)
Definition face_box := (Z * Z * Z * Z)%type.

Definition box_area (f : face_box) : Z := let '(_, _, w, h) := f in (w * h)%Z.

(** _calculate_face_score.  [img_area = 0] raises ZeroDivisionError, which
    the method catches. *)
Definition calculate_face_score (cascade_loaded : bool) (img_w img_h : Z)
    (out : call (list face_box)) : Q * list face_box :=
  if negb cascade_loaded then (0, []) else
  match out with
  | Raises _ => (0, [])
  | Returns [] => (0, [])
  | Returns faces =>
      let img_area := (img_h * img_w)%Z in
      if (img_area =? 0)%Z then (0, []) else
      let max_face_ratio :=
        fold_left (fun m f => py_max m (inject_Z (box_area f) / inject_Z img_area))
                  faces 0 in
      let score :=
        if Qltb max_face_ratio (1#100) then max_face_ratio * 10
        else if Qltb (1#2) max_face_ratio then 1#2
        else py_min 1 (max_face_ratio * 5) in
      (score, faces)
  end.

(** _calculate_aesthetic_score, from the Laplacian variance and the mean
    gray level that OpenCV/numpy compute. *)
Definition calculate_aesthetic_score (inp : call (Q * Q)) : Q :=
  match inp with
  | Raises _ => 1#2
  | Returns (laplacian_var, mean_gray) =>
      let sharpness := py_min 1 (laplacian_var / 500) in
      let brightness := mean_gray / 255 in
      let brightness_score := 1 - Qabs (brightness - (1#2)) * 2 in
      sharpness * (3#5) + brightness_score * (2#5)
  end.

(** What the pixel-level part of _detect_mosaic computes: for each block size
    of the loop ([8; 12; 16; 20], in order) the pair [mosaic_blocks],
    [skin_blocks]; the number of skin pixels; the variance of the Laplacian
    over the skin pixels. *)
Record mosaic_analysis := {
  block_stats : list (Z * Z * Z);
  skin_pixels : Z;
  skin_lap_var : Q
}.

(** The per-block-size loop keeping the best ratio and its details. *)
Fixpoint mosaic_best (stats : list (Z * Z * Z)) (best : Q) (details : string)
    : Q * string :=
  match stats with
  | [] => (best, details)
  | (block_size, mosaic_blocks, skin_blocks) :: rest =>
      if (10 <? skin_blocks)%Z then
        let mosaic_ratio := inject_Z mosaic_blocks / inject_Z skin_blocks in
        if Qltb best mosaic_ratio then
          mosaic_best rest mosaic_ratio
            ("block" +:+ pretty block_size +:+ ":mosaic=" +:+ pretty mosaic_blocks
             +:+ "/" +:+ pretty skin_blocks +:+ "=" +:+ fmt_fixed 3 mosaic_ratio)
        else mosaic_best rest best details
      else mosaic_best rest best details
  end.

Definition MOSAIC_THRESHOLD : Q := 5 # 1000.

(** _detect_mosaic: returns (is_mosaic, score, details). *)
Definition detect_mosaic (img_w img_h : Z) (an : call mosaic_analysis)
    : bool * Q * string :=
  if (img_w <? 100)%Z || (img_h <? 100)%Z then (false, 0, "image too small") else
  match an with
  | Raises e => (false, 0, "error: " +:+ e)
  | Returns a =>
      let '(best, details) := mosaic_best (block_stats a) 0 "" in
      let '(best, details) :=
        if (1000 <? skin_pixels a)%Z && Qltb 500 (skin_lap_var a) then
          let lap_score := py_min 1 (skin_lap_var a / 2000) in
          if Qltb (best * (1#2)) lap_score then
            (py_max best (best + lap_score * (3#10)),
             details +:+ ", lap_var=" +:+ fmt_fixed 0 (skin_lap_var a))
          else (best, details)
        else (best, details) in
      (Qltb MOSAIC_THRESHOLD best, best, details)
  end.

(** What the pixel-level part of _detect_pov computes from the skin mask:
    the skin ratio of the bottom 40%, of the bottom 10%, and of the left,
    center and right thirds of the bottom 40%. *)
Record pov_skin := {
  bottom_skin_ratio : Q;
  bottom_edge_skin_ratio : Q;
  left_skin : Q;
  center_skin : Q;
  right_skin : Q
}.

(** [max(face_data, key=lambda f: f[2] * f[3])]: the first box of maximal area. *)
Fixpoint largest_face (best : face_box) (rest : list face_box) : face_box :=
  match rest with
  | [] => best
  | f :: rest' => largest_face (if (box_area best <? box_area f)%Z then f else best) rest'
  end.

Definition POV_THRESHOLD : Q := 7 # 10.

(** _detect_pov: returns (is_pov, score, details).  [img_area = 0] raises
    ZeroDivisionError, caught by the method. *)
Definition detect_pov (img_w img_h : Z) (face_data : list face_box) (sk : call pov_skin)
    : bool * Q * string :=
  match face_data with
  | [] => (false, 0, "no face")
  | f0 :: fs =>
    let img_area := (img_h * img_w)%Z in
    if (img_area =? 0)%Z then (false, 0, "error: division by zero") else
    let '(fx, fy, fw, fh) := largest_face f0 fs in
    let face_ratio := inject_Z (fw * fh) / inject_Z img_area in
    if Qltb face_ratio (15#100) then
      (false, 0, "face too small (" +:+ fmt_percent 2 face_ratio +:+ ")") else
    let face_center_x := inject_Z fx + inject_Z fw / 2 in
    let center_offset := Qabs (face_center_x - inject_Z img_w / 2) / (inject_Z img_w / 2) in
    if Qltb (2#5) center_offset then
      (false, 0, "face not centered (" +:+ fmt_fixed 2 center_offset +:+ ")") else
    let face_center_y := inject_Z fy + inject_Z fh / 2 in
    let face_y_ratio := face_center_y / inject_Z img_h in
    if Qltb (1#2) face_y_ratio then
      (false, 0, "face not in upper portion (" +:+ fmt_fixed 2 face_y_ratio +:+ ")") else
    match sk with
    | Raises e => (false, 0, "error: " +:+ e)
    | Returns s =>
      let bottom := bottom_skin_ratio s in
      let edge := bottom_edge_skin_ratio s in
      let center := center_skin s in
      let v_shape_score :=
        if Qltb (1#10) center then
          (if Qltb (left_skin s) center && Qltb (right_skin s) center then center
           else if Qltb (15#100) center then center * (4#5)
           else 0)
        else 0 in
      let pov_score := 0 in
      let pov_score :=
        if Qltb (1#5) face_ratio then pov_score + (3#10)
        else if Qltb (15#100) face_ratio then pov_score + (1#5) else pov_score in
      let pov_score :=
        if Qltb (15#100) bottom then pov_score + (3#10)
        else if Qltb (8#100) bottom then pov_score + (1#5) else pov_score in
      let pov_score :=
        if Qltb (15#100) v_shape_score then pov_score + (3#10)
        else if Qltb (8#100) v_shape_score then pov_score + (1#5) else pov_score in
      let pov_score :=
        if Qltb face_y_ratio (2#5) then pov_score + (1#5) else pov_score in
      let is_pov :=
        Qle_bool POV_THRESHOLD pov_score && Qltb (1#5) bottom && Qltb (1#2) edge in
      let details :=
        "face=" +:+ fmt_percent 1 face_ratio +:+ ", y=" +:+ fmt_fixed 2 face_y_ratio
        +:+ ", bottom_skin=" +:+ fmt_percent 1 bottom +:+ ", edge_skin="
        +:+ fmt_percent 1 edge +:+ ", v_shape=" +:+ fmt_fixed 2 v_shape_score in
      (is_pov, pov_score, details)
    end
  end.

(* -------------------------------------------------------------------------- *)
(** * NSFWClassifier.classify                                                 *)
(* -------------------------------------------------------------------------- *)

(** The classifier object after [load()]: which models loaded, and the
    skip flags set by classify_batch. *)
Record classifier := {
  falconsai_loaded : bool;
  nudenet_loaded : bool;
  face_cascade_loaded : bool;
  skip_mosaic : bool;
  skip_pov : bool
}.

(** What the libraries return for one decoded image. *)
Record image_signals := {
  falconsai_out : call (list (string * Q));
  nudenet_out : call (list (string * Q));
  width : Z;
  height : Z;
  faces_out : call (list face_box);
  aesthetic_in : call (Q * Q);
  mosaic_in : call mosaic_analysis;
  pov_in : call pov_skin
}.

(** Loading an image: [Image.open(path).convert("RGB")] (or another call of
    the try block) raises, [cv2.imread] returns None, or both decoders succeed. *)
Inductive loaded_image :=
| LoadRaises (msg : string)
| CvReadNone
| Loaded (s : image_signals).

(** os.path.basename *)
Fixpoint basename_go (s acc : string) : string :=
  match s with
  | EmptyString => acc
  | String c s' =>
      (* 47 is the code of "/" *)
      if Ascii.eqb c (Ascii.ascii_of_nat 47) then basename_go s' "" else basename_go s' (acc +:+ String c EmptyString)
  end.

Definition basename (path : string) : string := basename_go path "".

(** The signals computed in the try block of classify, before the tier rules. *)
Record bundle := {
  b_falconsai : Q;
  b_nudenet : Q;
  b_nsfw : Q;
  b_face : Q;
  b_aesthetic : Q;
  b_mosaic : bool * Q * string;
  b_pov : bool * Q * string
}.

Definition extract (clf : classifier) (s : image_signals) : bundle :=
  let falconsai_score := score_falconsai (falconsai_loaded clf) (falconsai_out s) in
  let nudenet_score := score_nudenet (nudenet_loaded clf) (nudenet_out s) in
  let nsfw_score := fuse falconsai_score nudenet_score in
  let '(face_score, face_data) :=
    calculate_face_score (face_cascade_loaded clf) (width s) (height s) (faces_out s) in
  let aesthetic_score := calculate_aesthetic_score (aesthetic_in s) in
  let mosaic :=
    if skip_mosaic clf then (false, 0, "skipped")
    else detect_mosaic (width s) (height s) (mosaic_in s) in
  let pov :=
    if skip_pov clf then (false, 0, "skipped")
    else detect_pov (width s) (height s) face_data (pov_in s) in
  {| b_falconsai := falconsai_score; b_nudenet := nudenet_score; b_nsfw := nsfw_score;
     b_face := face_score; b_aesthetic := aesthetic_score; b_mosaic := mosaic; b_pov := pov |}.

Definition detected (r : bool * Q * string) : bool := let '(d, _, _) := r in d.
Definition det_score (r : bool * Q * string) : Q := let '(_, q, _) := r in q.
Definition det_details (r : bool * Q * string) : string := let '(_, _, t) := r in t.

Definition is_super_safe (cfg : thresholds) (nsfw_score face_score : Q)
    (mosaic_detected pov_detected : bool) : bool :=
  Qltb nsfw_score (SUPER_SAFE_THRESHOLD cfg) && Qltb (MIN_FACE_SCORE cfg) face_score
  && negb mosaic_detected && negb pov_detected.

Definition is_safe (cfg : thresholds) (nsfw_score : Q) (mosaic_detected : bool) : bool :=
  Qltb nsfw_score (NSFW_THRESHOLD cfg) && negb mosaic_detected.

(** The tier rules: (classification, reason). *)
Definition tier_of (cfg : thresholds) (nsfw_score face_score : Q)
    (mosaic_detected : bool) (mosaic_details : string)
    (pov_detected : bool) (pov_details : string) : string * string :=
  if mosaic_detected then ("nsfw", "mosaic detected (" +:+ mosaic_details +:+ ")")
  else if pov_detected then ("safe", "POV composition detected (" +:+ pov_details +:+ ")")
  else if is_super_safe cfg nsfw_score face_score mosaic_detected pov_detected then
    ("super_safe", "nsfw=" +:+ fmt_fixed 4 nsfw_score +:+ "<" +:+ fmt_const (SUPER_SAFE_THRESHOLD cfg)
       +:+ " AND face=" +:+ fmt_fixed 4 face_score +:+ ">" +:+ fmt_const (MIN_FACE_SCORE cfg)
       +:+ " AND clean")
  else if Qltb nsfw_score (NSFW_THRESHOLD cfg) then
    ("safe",
     if Qle_bool (SUPER_SAFE_THRESHOLD cfg) nsfw_score then
       "nsfw=" +:+ fmt_fixed 4 nsfw_score +:+ ">=" +:+ fmt_const (SUPER_SAFE_THRESHOLD cfg)
         +:+ " (too high for super_safe)"
     else "face=" +:+ fmt_fixed 4 face_score +:+ "<=" +:+ fmt_const (MIN_FACE_SCORE cfg)
         +:+ " (no face detected)")
  else ("nsfw", "nsfw=" +:+ fmt_fixed 4 nsfw_score +:+ ">=" +:+ fmt_const (NSFW_THRESHOLD cfg)).

Definition bundle_tier (cfg : thresholds) (b : bundle) : string * string :=
  tier_of cfg (b_nsfw b) (b_face b) (detected (b_mosaic b)) (det_details (b_mosaic b))
    (detected (b_pov b)) (det_details (b_pov b)).

(** The result returned when cv2.imread returns None (no POV keys). *)
Definition load_failed_result (filename : string) : pydict :=
  [("filename", VStr filename); ("is_super_safe", VBool false); ("is_safe", VBool false);
   ("nsfw_score", VFloat 1); ("face_score", VFloat 0); ("aesthetic_score", VFloat 0);
   ("falconsai_score", VFloat 0); ("nudenet_score", VFloat 0);
   ("mosaic_detected", VBool false); ("mosaic_score", VFloat 0);
   ("classification", VStr "error"); ("reason", VStr "Failed to load image");
   ("error", VStr "Failed to load image")].

(** The result of the [except Exception as e] branch. *)
Definition exception_result (filename e : string) : pydict :=
  [("filename", VStr filename); ("is_super_safe", VBool false); ("is_safe", VBool false);
   ("nsfw_score", VFloat 1); ("face_score", VFloat 0); ("aesthetic_score", VFloat 0);
   ("falconsai_score", VFloat 0); ("nudenet_score", VFloat 0);
   ("mosaic_detected", VBool false); ("mosaic_score", VFloat 0);
   ("pov_detected", VBool false); ("pov_score", VFloat 0);
   ("classification", VStr "error"); ("reason", VStr e); ("error", VStr e)].

Definition classify (cfg : thresholds) (clf : classifier) (image_path : string)
    (img : loaded_image) : pydict :=
  let filename := basename image_path in
  match img with
  | LoadRaises e => exception_result filename e
  | CvReadNone => load_failed_result filename
  | Loaded s =>
      let b := extract clf s in
      let '(classification, reason) := bundle_tier cfg b in
      let mosaic_detected := detected (b_mosaic b) in
      let pov_detected := detected (b_pov b) in
      [("filename", VStr filename);
       ("is_super_safe", VBool (is_super_safe cfg (b_nsfw b) (b_face b) mosaic_detected pov_detected));
       ("is_safe", VBool (is_safe cfg (b_nsfw b) mosaic_detected));
       ("nsfw_score", VFloat (round4 (b_nsfw b)));
       ("face_score", VFloat (round4 (b_face b)));
       ("aesthetic_score", VFloat (round4 (b_aesthetic b)));
       ("falconsai_score", VFloat (round4 (b_falconsai b)));
       ("nudenet_score", VFloat (round4 (b_nudenet b)));
       ("mosaic_detected", VBool mosaic_detected);
       ("mosaic_score", VFloat (round4 (det_score (b_mosaic b))));
       ("pov_detected", VBool pov_detected);
       ("pov_score", VFloat (round4 (det_score (b_pov b))));
       ("classification", VStr classification);
       ("reason", VStr reason);
       ("error", VStr "")]
  end.

(* -------------------------------------------------------------------------- *)
(** * Deduplication with perceptual hashes                                    *)
(* -------------------------------------------------------------------------- *)

(** compute_phash: the 64-bit hash of the file at a path ([phash], a function
    of the path), or None when imagehash is not installed or hashing raised. *)
Definition compute_phash (imagehash_available : bool) (phash : string -> option Z)
    (path : string) : option Z :=
  if imagehash_available then phash path else None.

Fixpoint count_bits (n : nat) (x : Z) : Z :=
  match n with
  | O => 0
  | S n' => Z.b2z (Z.testbit x (Z.of_nat n')) + count_bits n' x
  end.

(** [h - other_h] on ImageHash: the number of differing bits of the two
    64-bit (8x8) hashes. *)
Definition hamming (h other_h : Z) : Z := count_bits 64 (Z.lxor h other_h).

(** The inner loop [for j in range(i + 1, len(hashes))]: mark every later,
    not yet used, hashed image within the threshold. *)
Fixpoint mark_similar (threshold h : Z) (rest : list (string * option Z))
    (used : gset string) : gset string :=
  match rest with
  | [] => used
  | (other_path, other_h) :: rest' =>
      if decide (other_path ∈ used) then mark_similar threshold h rest' used else
      match other_h with
      | None => mark_similar threshold h rest' used
      | Some o =>
          if (hamming h o <=? threshold)%Z
          then mark_similar threshold h rest' ({[other_path]} ∪ used)
          else mark_similar threshold h rest' used
      end
  end.

(** The outer loop [for i, (path, h) in enumerate(hashes)]. *)
Fixpoint dedup_scan (threshold : Z) (hashes : list (string * option Z))
    (used : gset string) : list string :=
  match hashes with
  | [] => []
  | (path, h) :: rest =>
      if decide (path ∈ used) then dedup_scan threshold rest used else
      match h with
      | None => path :: dedup_scan threshold rest used
      | Some hv =>
          path :: dedup_scan threshold rest (mark_similar threshold hv rest ({[path]} ∪ used))
      end
  end.

Definition deduplicate_images (imagehash_available : bool) (phash : string -> option Z)
    (image_files : list string) (threshold : Z) : list string :=
  if negb imagehash_available then image_files
  else if (length image_files <=? 1)%nat then image_files
  else dedup_scan threshold
         (map (fun path => (path, compute_phash imagehash_available phash path)) image_files) ∅.

(** The dedup rule as the spec words it (section 4.2), for comparison with
    [deduplicate_images]: scan left to right; an image without a hash is kept;
    an image with a hash is dropped iff its distance to some earlier kept
    representative is at most the threshold, and otherwise becomes a
    representative. *)
Fixpoint spec_dedup (hash_of : string -> option Z) (threshold : Z) (reps : list Z)
    (files : list string) : list string :=
  match files with
  | [] => []
  | p :: rest =>
      match hash_of p with
      | None => p :: spec_dedup hash_of threshold reps rest
      | Some h =>
          if existsb (fun r => (hamming r h <=? threshold)%Z) reps
          then spec_dedup hash_of threshold reps rest
          else p :: spec_dedup hash_of threshold (reps ++ [h]) rest
      end
  end.

(** The paths of a list that have a hash, in order. *)
Definition hashed_paths (hash_of : string -> option Z) (l : list string) : list string :=
  List.filter (fun p => match hash_of p with Some _ => true | None => false end) l.

(* -------------------------------------------------------------------------- *)
(** * classify_batch                                                          *)
(* -------------------------------------------------------------------------- *)

(** Reading a key of a per-image result: [d[k]] (the keys read this way are
    always present in the results of [classify]) and [d.get(k, False)]. *)
Definition get_str (d : pydict) (k : string) : string :=
  match dict_get d k with Some (VStr s) => s | _ => "" end.
Definition get_bool (d : pydict) (k : string) : bool :=
  match dict_get d k with Some (VBool b) => b | _ => false end.
Definition get_float (d : pydict) (k : string) : Q :=
  match dict_get d k with Some (VFloat q) => q | _ => 0 end.

(** The local variables of the per-image loop. *)
Record batch_acc := {
  results : pydict;
  total_nsfw_score : Q;
  total_face_score : Q;
  super_safe_count : Z;
  safe_count : Z;
  nsfw_count : Z;
  error_count : Z;
  mosaic_count : Z;
  pov_count : Z
}.

Definition acc0 : batch_acc := {|
  results := []; total_nsfw_score := 0; total_face_score := 0;
  super_safe_count := 0; safe_count := 0; nsfw_count := 0; error_count := 0;
  mosaic_count := 0; pov_count := 0 |}.

(** One iteration of [for i, image_path in enumerate(image_files)]. *)
Definition batch_step (cfg : thresholds) (clf : classifier) (load : string -> loaded_image)
    (a : batch_acc) (image_path : string) : batch_acc :=
  let result := classify cfg clf image_path (load image_path) in
  let filename := get_str result "filename" in
  let err := str_truthy (get_str result "error") in
  let ss := get_bool result "is_super_safe" in
  let sf := get_bool result "is_safe" in
  {| results := dict_set (results a) filename (VDict result);
     total_nsfw_score := total_nsfw_score a + get_float result "nsfw_score";
     total_face_score := total_face_score a + get_float result "face_score";
     super_safe_count := if err then super_safe_count a
                         else if ss then super_safe_count a + 1 else super_safe_count a;
     safe_count := if err || ss then safe_count a
                   else if sf then safe_count a + 1 else safe_count a;
     nsfw_count := if err || ss || sf then nsfw_count a else nsfw_count a + 1;
     error_count := if err then error_count a + 1 else error_count a;
     mosaic_count := if get_bool result "mosaic_detected" then mosaic_count a + 1 else mosaic_count a;
     pov_count := if get_bool result "pov_detected" then pov_count a + 1 else pov_count a |}.

(** classify_batch.  [image_files] is what get_image_files returns for
    [input_path]; [load] gives, per path, the outcome of decoding and of the
    library calls; [processing_time] is [time.time() - start_time]. *)
Definition classify_batch (cfg : thresholds) (models_loaded : bool * bool * bool)
    (imagehash_available : bool) (phash : string -> option Z)
    (load : string -> loaded_image) (input_path : string) (image_files : list string)
    (skip_mosaic_flag skip_pov_flag skip_dedup : bool) (dedup_threshold : Z)
    (processing_time : Q) : pydict :=
  match image_files with
  | [] =>
      [("results", VDict []);
       ("stats", VDict
          [("total_images", VInt 0); ("super_safe_count", VInt 0); ("safe_count", VInt 0);
           ("nsfw_count", VInt 0); ("error_count", VInt 0); ("mosaic_count", VInt 0);
           ("pov_count", VInt 0); ("avg_nsfw_score", VFloat 0); ("avg_face_score", VFloat 0);
           ("processing_time_sec", VFloat 0)]);
       ("output_path", VStr input_path)]
  | _ =>
      let original_count := Z.of_nat (length image_files) in
      let '(files, dedup_removed) :=
        if negb skip_dedup then
          let fs := deduplicate_images imagehash_available phash image_files dedup_threshold in
          (fs, original_count - Z.of_nat (length fs))%Z
        else (image_files, 0%Z) in
      let '(fl, nl, cl) := models_loaded in
      let clf := {| falconsai_loaded := fl; nudenet_loaded := nl; face_cascade_loaded := cl;
                    skip_mosaic := skip_mosaic_flag; skip_pov := skip_pov_flag |} in
      let a := fold_left (batch_step cfg clf load) files acc0 in
      let total_images := Z.of_nat (length files) in
      let avg_nsfw_score :=
        if (0 <? total_images)%Z then total_nsfw_score a / inject_Z total_images else 0 in
      let avg_face_score :=
        if (0 <? total_images)%Z then total_face_score a / inject_Z total_images else 0 in
      [("results", VDict (results a));
       ("stats", VDict
          [("total_images", VInt total_images); ("original_images", VInt original_count);
           ("duplicates_removed", VInt dedup_removed);
           ("super_safe_count", VInt (super_safe_count a)); ("safe_count", VInt (safe_count a));
           ("nsfw_count", VInt (nsfw_count a)); ("error_count", VInt (error_count a));
           ("mosaic_count", VInt (mosaic_count a)); ("pov_count", VInt (pov_count a));
           ("avg_nsfw_score", VFloat (round4 avg_nsfw_score));
           ("avg_face_score", VFloat (round4 avg_face_score));
           ("processing_time_sec", VFloat (round2 processing_time))]);
       ("output_path", VStr input_path)]
  end.

(** The keys of the report's "stats" dict. *)
Definition stats_keys (report : pydict) : list string :=
  match dict_get report "stats" with Some (VDict st) => dict_keys st | _ => [] end.

Definition STATS_SCHEMA : list string :=
  ["total_images"; "original_images"; "duplicates_removed"; "super_safe_count";
   "safe_count"; "nsfw_count"; "error_count"; "mosaic_count"; "pov_count";
   "avg_nsfw_score"; "avg_face_score"; "processing_time_sec"].

(** The tier rules as the spec words them (section 4.4: first match wins),
    for comparison with [tier_of]. *)
Definition spec_tier (cfg : thresholds) (nsfw_score face_score : Q)
    (mosaic_detected pov_detected : bool) : string :=
  if mosaic_detected then "nsfw"
  else if pov_detected then "safe"
  else if Qlt_le_dec nsfw_score (SUPER_SAFE_THRESHOLD cfg) then
    (if Qlt_le_dec (MIN_FACE_SCORE cfg) face_score then "super_safe"
     else if Qlt_le_dec nsfw_score (NSFW_THRESHOLD cfg) then "safe" else "nsfw")
  else if Qlt_le_dec nsfw_score (NSFW_THRESHOLD cfg) then "safe" else "nsfw".

(* -------------------------------------------------------------------------- *)
(** * Concrete inputs                                                         *)
(* -------------------------------------------------------------------------- *)

(** All models loaded, no detector skipped. *)
Definition all_models : classifier := {|
  falconsai_loaded := true; nudenet_loaded := true; face_cascade_loaded := true;
  skip_mosaic := false; skip_pov := false |}.

(** A 1000x1000 image with one centered face covering 25% of the frame,
    skin filling the bottom of the frame, an exposed-breast detection at 0.9,
    and no mosaic block. *)
Definition pov_example : image_signals := {|
  falconsai_out := Returns [("nsfw", 9#10); ("normal", 1#10)];
  nudenet_out := Returns [("FEMALE_BREAST_EXPOSED", 9#10); ("FACE_FEMALE", 8#10)];
  width := 1000;
  height := 1000;
  faces_out := Returns [(250, 50, 500, 500)%Z];
  aesthetic_in := Returns (100, 128);
  mosaic_in := Returns {| block_stats := [(8, 0, 40); (12, 0, 30); (16, 0, 20); (20, 0, 12)]%Z;
                          skin_pixels := 400000; skin_lap_var := 100 |};
  pov_in := Returns {| bottom_skin_ratio := 1#2; bottom_edge_skin_ratio := 3#5;
                       left_skin := 1#10; center_skin := 1#2; right_skin := 1#10 |}
|}.

(** An 80x60 thumbnail with an explicit detection (0.9) and a blocky skin
    pattern that would count as mosaic on a larger image. *)
Definition thumb_example : image_signals := {|
  falconsai_out := Returns [("nsfw", 9#10)];
  nudenet_out := Returns [("FEMALE_GENITALIA_EXPOSED", 9#10)];
  width := 80;
  height := 60;
  faces_out := Returns [];
  aesthetic_in := Returns (800, 100);
  mosaic_in := Returns {| block_stats := [(8, 30, 30); (12, 20, 20); (16, 12, 12); (20, 11, 11)]%Z;
                          skin_pixels := 4000; skin_lap_var := 3000 |};
  pov_in := Returns {| bottom_skin_ratio := 0; bottom_edge_skin_ratio := 0;
                       left_skin := 0; center_skin := 0; right_skin := 0 |}
|}.

(** Hashes of four files: b.jpg is at distance exactly 8 from a.jpg, c.jpg at
    distance 9 from a.jpg, and hashing d.jpg fails. *)
Definition dedup_example_hash (path : string) : option Z :=
  if String.eqb path "a.jpg" then Some 0%Z
  else if String.eqb path "b.jpg" then Some 255%Z
  else if String.eqb path "c.jpg" then Some 511%Z
  else None.

Definition dedup_example_files : list string := ["a.jpg"; "b.jpg"; "c.jpg"; "d.jpg"].

(* -------------------------------------------------------------------------- *)
(** * Well-formed library outputs and the score keys of a result              *)
(* -------------------------------------------------------------------------- *)

Definition in01 (q : Q) : Prop := 0 <= q /\ q <= 1.

(** What the libraries guarantee: model confidences in [0,1], face boxes
    inside the image, a nonnegative Laplacian variance, a mean gray level in
    [0,255], and at most as many mosaic windows as skin windows. *)
Record signals_wf (s : image_signals) : Prop := {
  wf_falconsai : match falconsai_out s with
                 | Returns rs => Forall (fun r => in01 (snd r)) rs | Raises _ => True end;
  wf_nudenet : match nudenet_out s with
               | Returns ds => Forall (fun d => in01 (snd d)) ds | Raises _ => True end;
  wf_dims : (0 <= width s)%Z /\ (0 <= height s)%Z;
  wf_faces : match faces_out s with
             | Returns fs =>
                 Forall (fun f : face_box => let '(_, _, w, h) := f in
                           (0 <= w <= width s)%Z /\ (0 <= h <= height s)%Z) fs
             | Raises _ => True end;
  wf_aesthetic : match aesthetic_in s with
                 | Returns (lv, mg) => 0 <= lv /\ 0 <= mg /\ mg <= 255 | Raises _ => True end;
  wf_mosaic : match mosaic_in s with
              | Returns a => Forall (fun b : Z * Z * Z => let '(_, m, k) := b in (0 <= m <= k)%Z)
                               (block_stats a)
              | Raises _ => True end
}.

Definition loaded_wf (img : loaded_image) : Prop :=
  match img with Loaded s => signals_wf s | _ => True end.

Definition score_keys : list string :=
  ["nsfw_score"; "face_score"; "aesthetic_score"; "falconsai_score"; "nudenet_score";
   "mosaic_score"; "pov_score"].

(** The upper bound the code gives each score key. *)
Definition score_upper (k : string) : Q :=
  if String.eqb k "mosaic_score" then 13#10
  else if String.eqb k "pov_score" then 11#10
  else 1.

(* -------------------------------------------------------------------------- *)
(** * The block scan of _detect_mosaic                                        *)
(* -------------------------------------------------------------------------- *)

(** What numpy computes for the window of size [block_size] at [(y, x)]:
    the share of skin pixels, the largest and the mean of the variances of
    the four sub-blocks, the range of their means, and the horizontal and
    vertical differences across the half lines. *)
Record window_stats := {
  skin_ratio : Q;
  max_var : Q;
  avg_var : Q;
  mean_range : Q;
  h_edge : Q;
  v_edge : Q
}.

(** [range(start, stop, step)] for a positive step; [stop - start] steps of
    fuel are enough since each step advances by at least 1. *)
Fixpoint py_range_go (fuel : nat) (start stop step : Z) : list Z :=
  match fuel with
  | O => []
  | S fuel' =>
      if (start <? stop)%Z then start :: py_range_go fuel' (start + step) stop step else []
  end.

Definition py_range (start stop step : Z) : list Z :=
  py_range_go (Z.to_nat (stop - start)) start stop step.

(** One window of the double loop: returns the updated
    [(mosaic_blocks, skin_blocks)]. *)
Definition window_step (ws : window_stats) (counts : Z * Z) : Z * Z :=
  let '(mosaic_blocks, skin_blocks) := counts in
  if Qltb (skin_ratio ws) (3#10) then (mosaic_blocks, skin_blocks) else
  let skin_blocks := (skin_blocks + 1)%Z in
  if Qltb (max_var ws) 120 && Qltb (avg_var ws) 80 && Qltb 15 (mean_range ws) then
    if Qltb 12 (h_edge ws) || Qltb 12 (v_edge ws)
    then ((mosaic_blocks + 1)%Z, skin_blocks)
    else (mosaic_blocks, skin_blocks)
  else (mosaic_blocks, skin_blocks).

(** [for y in range(0, img_h - block_size, block_size // 2)] and
    [for x in range(0, img_w - block_size, block_size // 2)]. *)
Definition block_scan (win : Z -> Z -> Z -> window_stats) (img_w img_h block_size : Z)
    : Z * Z :=
  fold_left (fun acc y =>
      fold_left (fun acc' x => window_step (win block_size y x) acc')
        (py_range 0 (img_w - block_size) (block_size / 2)) acc)
    (py_range 0 (img_h - block_size) (block_size / 2)) (0, 0)%Z.

(** [for block_size in [8, 12, 16, 20]]: the counts of each block size. *)
Definition block_stats_of (win : Z -> Z -> Z -> window_stats) (img_w img_h : Z)
    : list (Z * Z * Z) :=
  map (fun block_size => let '(m, k) := block_scan win img_w img_h block_size in
                         (block_size, m, k)) [8; 12; 16; 20]%Z.

(* -------------------------------------------------------------------------- *)
(** * get_image_files                                                         *)
(* -------------------------------------------------------------------------- *)

Definition IMAGE_EXTENSIONS : list string := [".jpg"; ".jpeg"; ".png"; ".webp"].

(** What a path is on disk: a regular file, a directory with the names of
    its entries, or neither. *)
Inductive fs_entry :=
| FsFile
| FsDir (names : list string)
| FsMissing.

(** [str.upper()] on ASCII text. *)
Definition ascii_upper (c : Ascii.ascii) : Ascii.ascii :=
  let n := Ascii.nat_of_ascii c in
  if (97 <=? n)%nat && (n <=? 122)%nat then Ascii.ascii_of_nat (n - 32) else c.

Fixpoint str_upper (s : string) : string :=
  match s with
  | EmptyString => EmptyString
  | String c s' => String (ascii_upper c) (str_upper s')
  end.

(** Whether a name matches the glob [*<suffix>] (case-sensitive, as on
    POSIX). *)
Definition str_ends_with (s suffix : string) : bool :=
  (String.length suffix <=? String.length s)%nat
  && String.eqb (String.substring (String.length s - String.length suffix) (String.length suffix) s)
       suffix.

(** [str(Path(dir) / name)] for a normalised directory path. *)
Definition path_join (dir name : string) : string :=
  if String.eqb dir "." then name
  else if String.eqb dir "/" then dir +:+ name
  else dir +:+ "/" +:+ name.

(** [sorted(s)] of a Python set of strings built from a list: the distinct
    strings in increasing code-point order. *)
Fixpoint insert_sorted (x : string) (l : list string) : list string :=
  match l with
  | [] => [x]
  | y :: l' =>
      match String.compare x y with
      | Lt => x :: l
      | Eq => l
      | Gt => y :: insert_sorted x l'
      end
  end.

Definition sorted_set (l : list string) : list string := fold_right insert_sorted [] l.

(** get_image_files, for [input_path] already in the normal form
    [str(Path(input_path))]; [fs] tells what a path is on disk. *)
Definition get_image_files (fs : string -> fs_entry) (input_path : string) : list string :=
  match fs input_path with
  | FsFile => [input_path]
  | FsDir names =>
      sorted_set
        (flat_map (fun ext =>
            List.app
              (map (path_join input_path) (List.filter (fun n => str_ends_with n ext) names))
              (map (path_join input_path)
                 (List.filter (fun n => str_ends_with n (str_upper ext)) names)))
          IMAGE_EXTENSIONS)
  | FsMissing => []
  end.

(* -------------------------------------------------------------------------- *)
(** * More concrete inputs                                                    *)
(* -------------------------------------------------------------------------- *)

(** A look-up of a key of the report's "stats" dict. *)
Definition stat (report : pydict) (k : string) : option pyval :=
  match dict_get report "stats" with Some (VDict st) => dict_get st k | _ => None end.

(** A 400x400 image that only Falconsai flags (score 1.0), with no NudeNet
    detection, no face and no mosaic window. *)
Definition falconsai_only_example : image_signals := {|
  falconsai_out := Returns [("normal", 0); ("nsfw", 1)];
  nudenet_out := Returns [];
  width := 400;
  height := 400;
  faces_out := Returns [];
  aesthetic_in := Returns (250, 128);
  mosaic_in := Returns {| block_stats := [(8, 0, 20); (12, 0, 20); (16, 0, 20); (20, 0, 20)]%Z;
                          skin_pixels := 500; skin_lap_var := 0 |};
  pov_in := Returns {| bottom_skin_ratio := 0; bottom_edge_skin_ratio := 0;
                       left_skin := 0; center_skin := 0; right_skin := 0 |}
|}.

(** A 400x400 image with much sharp skin texture (Laplacian variance 800
    over 20000 skin pixels) but no mosaic window and no detection. *)
Definition sharp_skin_example : image_signals := {|
  falconsai_out := Returns [("normal", 1)];
  nudenet_out := Returns [];
  width := 400;
  height := 400;
  faces_out := Returns [];
  aesthetic_in := Returns (800, 128);
  mosaic_in := Returns {| block_stats := [(8, 0, 200); (12, 0, 100); (16, 0, 50); (20, 0, 30)]%Z;
                          skin_pixels := 20000; skin_lap_var := 800 |};
  pov_in := Returns {| bottom_skin_ratio := 0; bottom_edge_skin_ratio := 0;
                       left_skin := 0; center_skin := 0; right_skin := 0 |}
|}.

(** A directory listing with images under lower- and upper-case extensions
    and files that are not images. *)
Definition example_dir (p : string) : fs_entry :=
  if String.eqb p "imgs" then FsDir ["b.PNG"; "notes.txt"; "a.jpg"; "c.Jpg"; "d.webp"]
  else if String.eqb p "imgs/a.jpg" then FsFile
  else FsMissing.

(* ========================================================================== *)
(** * Proofs                                                                  *)
(* ========================================================================== *)

From Stdlib Require Import Lqa Sorting.Sorted.
From Stdlib Require OrderedTypeEx.

(** ** Boolean comparisons on Q *)

Lemma Qltb_reflect (a b : Q) : reflect (a < b) (Qltb a b).
Proof.
  unfold Qltb. destruct (Qle_bool b a) eqn:E; constructor.
  - apply Qle_bool_iff in E. lra.
  - apply Qnot_le_lt. intro Hle. apply Qle_bool_iff in Hle. congruence.
Qed.

Lemma Qle_bool_reflect (a b : Q) : reflect (a <= b) (Qle_bool a b).
Proof.
  destruct (Qle_bool a b) eqn:E; constructor.
  - apply Qle_bool_iff. exact E.
  - intro H. apply Qle_bool_iff in H. congruence.
Qed.

Lemma Qeq_bool_reflect (a b : Q) : reflect (a == b) (Qeq_bool a b).
Proof.
  destruct (Qeq_bool a b) eqn:E; constructor.
  - apply Qeq_bool_iff. exact E.
  - intro H. apply Qeq_bool_iff in H. congruence.
Qed.

(** Case on the first boolean comparison of the goal. *)
Ltac qcase :=
  match goal with
  | |- context [Qltb ?a ?b] => destruct (Qltb_reflect a b)
  | |- context [Qle_bool ?a ?b] => destruct (Qle_bool_reflect a b)
  | |- context [Qeq_bool ?a ?b] => destruct (Qeq_bool_reflect a b)
  | |- context [Qlt_le_dec ?a ?b] => destruct (Qlt_le_dec a b)
  end.

Ltac qcases := repeat (qcase; simpl); try lra.

(** ** Fusion *)

Lemma fuse_cases (f n : Q) :
  (n < 1#4 -> fuse f n == f * (3#10)) /\
  (3#5 < n -> fuse f n == n) /\
  (1#4 <= n -> n <= 3#5 -> fuse f n == n * (7#10) + f * (3#10)).
Proof. unfold fuse. repeat split; intros; qcases. Qed.

(** ** Tier rules *)

Lemma classify_classification (cfg : thresholds) (clf : classifier) (path : string)
    (s : image_signals) :
  get_str (classify cfg clf path (Loaded s)) "classification"
  = fst (bundle_tier cfg (extract clf s)).
Proof.
  unfold classify. cbv zeta.
  destruct (bundle_tier cfg (extract clf s)) as [c r]. reflexivity.
Qed.

Lemma tier_of_spec_tier (cfg : thresholds) (nsfw face : Q) (m : bool) (md : string)
    (p : bool) (pd : string) :
  fst (tier_of cfg nsfw face m md p pd) = spec_tier cfg nsfw face m p.
Proof.
  unfold tier_of, spec_tier, is_super_safe.
  destruct m, p; simpl; qcases; reflexivity.
Qed.

Lemma classification_is_spec_tier (cfg : thresholds) (clf : classifier) (path : string)
    (s : image_signals) :
  get_str (classify cfg clf path (Loaded s)) "classification"
  = spec_tier cfg (b_nsfw (extract clf s)) (b_face (extract clf s))
      (detected (b_mosaic (extract clf s))) (detected (b_pov (extract clf s))).
Proof.
  rewrite classify_classification. unfold bundle_tier. apply tier_of_spec_tier.
Qed.

(** Fields of the result of a decoded image. *)
Ltac classify_field :=
  intros; unfold classify; cbv zeta;
  match goal with |- context [bundle_tier ?c ?b] => destruct (bundle_tier c b) end;
  reflexivity.

Lemma classify_mosaic_detected (cfg : thresholds) (clf : classifier) (path : string)
    (s : image_signals) :
  get_bool (classify cfg clf path (Loaded s)) "mosaic_detected"
  = detected (b_mosaic (extract clf s)).
Proof. classify_field. Qed.

Lemma classify_mosaic_score (cfg : thresholds) (clf : classifier) (path : string)
    (s : image_signals) :
  get_float (classify cfg clf path (Loaded s)) "mosaic_score"
  = round4 (det_score (b_mosaic (extract clf s))).
Proof. classify_field. Qed.

(** ** Small images and the mosaic detector *)

Lemma detect_mosaic_small (w h : Z) (an : call mosaic_analysis) :
  (w < 100 \/ h < 100)%Z -> detect_mosaic w h an = (false, 0, "image too small").
Proof.
  intros Hs. unfold detect_mosaic.
  destruct Hs as [Hs | Hs].
  - apply Z.ltb_lt in Hs. rewrite Hs. reflexivity.
  - apply Z.ltb_lt in Hs. rewrite Hs, orb_true_r. reflexivity.
Qed.

Lemma extract_mosaic_small (clf : classifier) (s : image_signals) :
  (width s < 100 \/ height s < 100)%Z ->
  detected (b_mosaic (extract clf s)) = false /\ det_score (b_mosaic (extract clf s)) = 0.
Proof.
  intros Hs. unfold extract. cbv zeta.
  destruct (calculate_face_score _ _ _ _) as [fs fd].
  simpl. destruct (skip_mosaic clf).
  - split; reflexivity.
  - rewrite (detect_mosaic_small _ _ _ Hs). split; reflexivity.
Qed.

(** ** Claim C2 *)

(** C2: for a loaded image the classification is given by the rules in the
    fixed order of the spec, first match winning: mosaic gives nsfw, then POV
    gives safe, then nsfw_score < SUPER_SAFE_THRESHOLD with face_score >
    MIN_FACE_SCORE gives super_safe, then nsfw_score < NSFW_THRESHOLD gives
    safe, otherwise nsfw. *)
Theorem classify_tier_precedence (cfg : thresholds) (clf : classifier) (path : string)
    (s : image_signals) :
  get_str (classify cfg clf path (Loaded s)) "classification"
  = spec_tier cfg (b_nsfw (extract clf s)) (b_face (extract clf s))
      (detected (b_mosaic (extract clf s))) (detected (b_pov (extract clf s))).
Proof. exact (classification_is_spec_tier cfg clf path s). Qed.

(** ** Claim C1 *)

(** C1 (counterexample): a loaded image with a POV composition, no mosaic and
    fused score 0.9 >= NSFW_THRESHOLD is classified safe, not nsfw. *)
Lemma tier_nsfw_iff_counterexample :
  ~ (get_str (classify default_thresholds all_models "pov.jpg" (Loaded pov_example))
       "classification" = "nsfw"
     <-> (NSFW_THRESHOLD default_thresholds <= b_nsfw (extract all_models pov_example)
          \/ detected (b_mosaic (extract all_models pov_example)) = true)).
Proof.
  intros [_ H].
  assert (Hs : get_str (classify default_thresholds all_models "pov.jpg" (Loaded pov_example))
                 "classification" = "safe") by (vm_compute; reflexivity).
  rewrite Hs in H.
  assert (Hn : NSFW_THRESHOLD default_thresholds <= b_nsfw (extract all_models pov_example))
    by (apply Qle_bool_iff; vm_compute; reflexivity).
  specialize (H (or_introl Hn)). discriminate H.
Qed.

(** C1 (amended): when SUPER_SAFE_THRESHOLD <= NSFW_THRESHOLD (as in the
    defaults), a loaded image is classified nsfw iff mosaic is detected, or
    no POV composition is detected and the fused nsfw_score is >=
    NSFW_THRESHOLD. *)
Theorem classification_nsfw_iff (cfg : thresholds) (clf : classifier) (path : string)
    (s : image_signals) (Hord : SUPER_SAFE_THRESHOLD cfg <= NSFW_THRESHOLD cfg) :
  get_str (classify cfg clf path (Loaded s)) "classification" = "nsfw"
  <-> detected (b_mosaic (extract clf s)) = true
      \/ (detected (b_pov (extract clf s)) = false
          /\ NSFW_THRESHOLD cfg <= b_nsfw (extract clf s)).
Proof.
  rewrite classification_is_spec_tier. unfold spec_tier.
  destruct (detected (b_mosaic (extract clf s))), (detected (b_pov (extract clf s)));
    repeat qcase; intuition (try discriminate; try lra).
Qed.

Lemma classification_nsfw_iff_witness :
  SUPER_SAFE_THRESHOLD default_thresholds <= NSFW_THRESHOLD default_thresholds /\
  (get_str (classify default_thresholds all_models "pov.jpg" (Loaded pov_example))
     "classification" = "nsfw"
   <-> detected (b_mosaic (extract all_models pov_example)) = true
       \/ (detected (b_pov (extract all_models pov_example)) = false
           /\ NSFW_THRESHOLD default_thresholds <= b_nsfw (extract all_models pov_example))).
Proof.
  split.
  - apply Qle_bool_iff. vm_compute. reflexivity.
  - apply (classification_nsfw_iff default_thresholds all_models "pov.jpg" pov_example).
    apply Qle_bool_iff. vm_compute. reflexivity.
Defined.

(** ** Claim C3 *)

(** C3: the fused nsfw_score is 0.3*f when n < 0.25, n when n > 0.6, and
    0.7*n + 0.3*f otherwise (n = 0.25 and n = 0.6 included), where f and n
    are the falconsai and nudenet scores of the image. *)
Theorem fused_score_cases (clf : classifier) (s : image_signals) :
  let f := b_falconsai (extract clf s) in
  let n := b_nudenet (extract clf s) in
  let fused := b_nsfw (extract clf s) in
  (n < 1#4 -> fused == f * (3#10)) /\
  (3#5 < n -> fused == n) /\
  (1#4 <= n -> n <= 3#5 -> fused == n * (7#10) + f * (3#10)).
Proof.
  cbv zeta.
  assert (E : b_nsfw (extract clf s)
              = fuse (b_falconsai (extract clf s)) (b_nudenet (extract clf s))).
  { unfold extract. cbv zeta.
    destruct (calculate_face_score _ _ _ _). reflexivity. }
  rewrite E. apply fuse_cases.
Qed.

(** ** Claim C5 *)

(** C5 (counterexample): at f = 0 there is no left neighbourhood of n = 0.25
    on which the fused score stays within 0.05 of its value at 0.25. *)
Lemma fusion_continuity_counterexample :
  ~ (exists delta : Q, 0 < delta /\
       forall n : Q, (1#4) - delta < n -> n < 1#4 -> Qabs (fuse 0 (1#4) - fuse 0 n) <= 1#20).
Proof.
  intros [delta [Hd H]].
  specialize (H ((1#4) - delta * (1#2)) ltac:(lra) ltac:(lra)).
  unfold fuse in H at 2.
  destruct (Qltb_reflect ((1#4) - delta * (1#2)) (1#4)) as [_ | Hc]; [ | lra].
  assert (E : fuse 0 (1#4) - 0 * (3#10) == 7#40) by (vm_compute; reflexivity).
  rewrite E in H. vm_compute in H. apply H. reflexivity.
Qed.

(** C5 (amended): the fused score jumps at both boundaries: for every f,
    moving n from below 0.25 to 0.25 raises it by exactly 0.175, and for n
    above 0.6 it exceeds its value 0.42 + 0.3*f at 0.6 by (n - 0.6) + (0.18 -
    0.3*f), a jump of 0.18 - 0.3*f as n decreases to 0.6. *)
Theorem fusion_boundary_jumps (f n1 n2 : Q) (H1 : n1 < 1#4) (H2 : 3#5 < n2) :
  fuse f (1#4) - fuse f n1 == 7#40 /\
  fuse f n2 - fuse f (3#5) == (n2 - (3#5)) + ((9#50) - f * (3#10)).
Proof.
  unfold fuse. split; qcases.
Qed.

Lemma fusion_boundary_jumps_witness :
  (0 < 1#4 /\ 3#5 < 1) /\
  (fuse 0 (1#4) - fuse 0 0 == 7#40 /\ fuse 0 1 - fuse 0 (3#5) == (1 - (3#5)) + ((9#50) - 0 * (3#10))).
Proof.
  split.
  - split; vm_compute; reflexivity.
  - apply (fusion_boundary_jumps 0 0 1); vm_compute; reflexivity.
Defined.

(** ** Claim C10 *)

(** C10: for an image narrower or lower than 100 pixels the mosaic detector
    reports not-detected with score 0.0, so such an image is classified nsfw
    only when its fused nsfw_score is >= NSFW_THRESHOLD. *)
Theorem small_image_no_mosaic (cfg : thresholds) (clf : classifier) (path : string)
    (s : image_signals) (Hsmall : (width s < 100 \/ height s < 100)%Z) :
  get_bool (classify cfg clf path (Loaded s)) "mosaic_detected" = false /\
  get_float (classify cfg clf path (Loaded s)) "mosaic_score" == 0 /\
  (get_str (classify cfg clf path (Loaded s)) "classification" = "nsfw" ->
   NSFW_THRESHOLD cfg <= b_nsfw (extract clf s)).
Proof.
  destruct (extract_mosaic_small clf s Hsmall) as [Hd Hz].
  rewrite classify_mosaic_detected, classify_mosaic_score, classification_is_spec_tier, Hd, Hz.
  split; [reflexivity | split; [vm_compute; reflexivity | ]].
  unfold spec_tier. destruct (detected (b_pov (extract clf s))); [discriminate | ].
  repeat qcase; try discriminate; auto.
Qed.

Lemma small_image_no_mosaic_witness :
  (width thumb_example < 100 \/ height thumb_example < 100)%Z /\
  get_bool (classify default_thresholds all_models "t.jpg" (Loaded thumb_example))
    "mosaic_detected" = false.
Proof.
  assert (H : (width thumb_example < 100 \/ height thumb_example < 100)%Z)
    by (left; vm_compute; reflexivity).
  split; [exact H | ].
  apply (small_image_no_mosaic default_thresholds all_models "t.jpg" thumb_example H).
Defined.

(** ** Bounds of the scores *)

Lemma Q_ratio_in01 (a b : Z) : (0 <= a <= b)%Z -> (0 < b)%Z -> in01 (inject_Z a / inject_Z b).
Proof.
  intros [Ha Hab] Hb.
  assert (Ha' : inject_Z 0 <= inject_Z a) by (rewrite <- Zle_Qle; exact Ha).
  assert (Hab' : inject_Z a <= inject_Z b) by (rewrite <- Zle_Qle; exact Hab).
  assert (Hb' : inject_Z 0 < inject_Z b) by (rewrite <- Zlt_Qlt; exact Hb).
  change (inject_Z 0) with 0 in Ha', Hb'.
  split.
  - apply Qle_shift_div_l; [exact Hb' | lra].
  - apply Qle_shift_div_r; [exact Hb' | lra].
Qed.

Lemma py_max_in01 (a b : Q) : in01 a -> in01 b -> in01 (py_max a b).
Proof. unfold py_max. intros. qcase; auto. Qed.

Lemma falconsai_first_in01 (rs : list (string * Q)) :
  Forall (fun r => in01 (snd r)) rs -> in01 (falconsai_first rs).
Proof.
  induction rs as [ | [l sc] rs IH]; intros H; simpl.
  - unfold in01; lra.
  - inversion H; subst. case_match; auto.
Qed.

Lemma score_falconsai_in01 (b : bool) (out : call (list (string * Q))) :
  match out with Returns rs => Forall (fun r => in01 (snd r)) rs | Raises _ => True end ->
  in01 (score_falconsai b out).
Proof.
  unfold score_falconsai. intros H. destruct b; simpl; [ | unfold in01; lra].
  destruct out; [unfold in01; lra | apply falconsai_first_in01; exact H].
Qed.

Lemma nudenet_fold_in01 (ds : list (string * Q)) (m : Q) :
  in01 m -> Forall (fun d => in01 (snd d)) ds ->
  in01 (fold_left (fun m '(cls, score) =>
                     if str_in cls NSFW_LABELS then py_max m score else m) ds m).
Proof.
  revert m. induction ds as [ | [c sc] ds IH]; intros m Hm H; simpl; [exact Hm | ].
  inversion H; subst. apply IH; [ | assumption].
  case_match; [apply py_max_in01 | ]; auto.
Qed.

Lemma score_nudenet_in01 (b : bool) (out : call (list (string * Q))) :
  match out with Returns ds => Forall (fun d => in01 (snd d)) ds | Raises _ => True end ->
  in01 (score_nudenet b out).
Proof.
  unfold score_nudenet. intros H. destruct b; simpl; [ | unfold in01; lra].
  destruct out as [ | [ | d ds]]; try (unfold in01; lra).
  apply nudenet_fold_in01; [unfold in01; lra | exact H].
Qed.

Lemma fuse_in01 (f n : Q) : in01 f -> in01 n -> in01 (fuse f n).
Proof. unfold in01, fuse. intros [] []. qcases. Qed.

Lemma face_fold_in01 (fs : list face_box) (W H : Z) (m : Q) :
  (0 < H * W)%Z -> in01 m ->
  Forall (fun f : face_box => let '(_, _, w, h) := f in
            (0 <= w <= W)%Z /\ (0 <= h <= H)%Z) fs ->
  in01 (fold_left (fun m f => py_max m (inject_Z (box_area f) / inject_Z (H * W))) fs m).
Proof.
  revert m. induction fs as [ | f fs IH]; intros m HA Hm Hf; simpl; [exact Hm | ].
  inversion Hf; subst. apply IH; auto. apply py_max_in01; auto.
  destruct f as [[[x y] w] h]. simpl. apply Q_ratio_in01; [ | exact HA].
  match goal with Hb : (_ /\ _) |- _ => destruct Hb as [[Hw1 Hw2] [Hh1 Hh2]] end.
  split; nia.
Qed.

Lemma face_score_in01 (b : bool) (W H : Z) (out : call (list face_box)) :
  (0 <= W)%Z -> (0 <= H)%Z ->
  match out with
  | Returns fs => Forall (fun f : face_box => let '(_, _, w, h) := f in
                    (0 <= w <= W)%Z /\ (0 <= h <= H)%Z) fs
  | Raises _ => True end ->
  in01 (fst (calculate_face_score b W H out)).
Proof.
  intros HW HH Hf. unfold calculate_face_score.
  destruct b; simpl; [ | unfold in01; lra].
  destruct out as [ | [ | f fs]]; try (simpl; unfold in01; lra).
  cbv beta iota zeta.
  destruct (Z.eqb_spec (H * W) 0) as [E | E]; cbv beta iota; [simpl; unfold in01; lra | ].
  assert (HA : (0 < H * W)%Z) by nia.
  pose proof (face_fold_in01 (f :: fs) W H 0 HA ltac:(unfold in01; lra) Hf) as [H0 H1].
  set (r := fold_left _ (f :: fs) 0) in *.
  unfold py_min, in01. simpl fst. qcases.
Qed.

Lemma aesthetic_in01 (inp : call (Q * Q)) :
  match inp with Returns (lv, mg) => 0 <= lv /\ 0 <= mg /\ mg <= 255 | Raises _ => True end ->
  in01 (calculate_aesthetic_score inp).
Proof.
  unfold in01, calculate_aesthetic_score. destruct inp as [ | [lv mg]]; [lra | ].
  intros (H1 & H2 & H3).
  assert (Hs : 0 <= lv / 500) by (apply Qle_shift_div_l; lra).
  assert (Hb0 : 0 <= mg / 255) by (apply Qle_shift_div_l; lra).
  assert (Hb1 : mg / 255 <= 1) by (apply Qle_shift_div_r; lra).
  unfold py_min. qcase; apply Qabs_case; intros; lra.
Qed.

Lemma mosaic_best_bound (stats : list (Z * Z * Z)) (best : Q) (details : string) :
  in01 best ->
  Forall (fun b : Z * Z * Z => let '(_, m, k) := b in (0 <= m <= k)%Z) stats ->
  in01 (fst (mosaic_best stats best details)).
Proof.
  revert best details.
  induction stats as [ | [[bs m] k] stats IH]; intros best details Hb Hs; simpl; [exact Hb | ].
  inversion Hs as [ | ? ? Hmk Hrest]; subst.
  destruct (Z.ltb_spec 10 k) as [Hk | Hk]; [ | apply IH; auto].
  pose proof (Q_ratio_in01 m k Hmk ltac:(lia)) as Hr.
  qcase; apply IH; auto.
Qed.

Lemma detect_mosaic_bound (w h : Z) (an : call mosaic_analysis) :
  match an with
  | Returns a => Forall (fun b : Z * Z * Z => let '(_, m, k) := b in (0 <= m <= k)%Z)
                   (block_stats a)
  | Raises _ => True end ->
  0 <= det_score (detect_mosaic w h an) /\ det_score (detect_mosaic w h an) <= 13#10.
Proof.
  intros Hwf. unfold detect_mosaic.
  destruct ((w <? 100)%Z || (h <? 100)%Z); [simpl; lra | ].
  destruct an as [e | a]; [simpl; lra | ].
  pose proof (mosaic_best_bound (block_stats a) 0 "" ltac:(unfold in01; lra) Hwf) as Hb.
  destruct (mosaic_best (block_stats a) 0 "") as [best details]. simpl in Hb.
  destruct Hb as [Hb0 Hb1].
  destruct ((1000 <? skin_pixels a)%Z); simpl; [ | lra].
  destruct (Qltb_reflect 500 (skin_lap_var a)) as [Hv | Hv]; simpl; [ | lra].
  assert (Hl : 0 <= skin_lap_var a / 2000) by (apply Qle_shift_div_l; lra).
  unfold py_min, py_max. qcases.
Qed.

Lemma detect_pov_bound (w h : Z) (fd : list face_box) (sk : call pov_skin) :
  0 <= det_score (detect_pov w h fd sk) /\ det_score (detect_pov w h fd sk) <= 11#10.
Proof.
  unfold detect_pov.
  destruct fd as [ | f0 fs]; [simpl; lra | ].
  destruct ((h * w =? 0)%Z); [simpl; lra | ].
  destruct (largest_face f0 fs) as [[[fx fy] fw] fh].
  cbv beta iota zeta.
  repeat match goal with
         | |- context [if Qltb ?a ?b then _ else _] => destruct (Qltb a b)
         | |- context [match sk with _ => _ end] => destruct sk
         end;
  simpl; lra.
Qed.

Lemma round_half_even_bound (y : Q) (B : Z) :
  0 <= y -> y <= inject_Z B -> (0 <= round_half_even y <= B)%Z.
Proof.
  intros H0 HB. unfold round_half_even.
  pose proof (Qfloor_le y) as Hfl. pose proof (Qlt_floor y) as Hlt.
  set (fl := Qfloor y) in *. rewrite inject_Z_plus in Hlt.
  assert (Hfl0 : (0 <= fl)%Z).
  { assert (Hq : inject_Z (-1) < inject_Z fl) by (change (inject_Z 1) with 1 in Hlt;
      change (inject_Z (-1)) with (-1); lra).
    rewrite <- Zlt_Qlt in Hq. lia. }
  assert (HflB : (fl <= B)%Z) by (rewrite Zle_Qle; lra).
  destruct (Qltb_reflect (y - inject_Z fl) (1#2)) as [Hh | Hh]; [lia | ].
  assert (HflB' : (fl < B)%Z) by (rewrite Zlt_Qlt; lra).
  destruct (Qeq_bool (y - inject_Z fl) (1#2)); [destruct (Z.even fl) | ]; lia.
Qed.

Lemma round4_bound (x : Q) (B : Z) :
  0 <= x -> x <= B # 10000 -> 0 <= round4 x /\ round4 x <= B # 10000.
Proof.
  intros H0 HB. unfold round4.
  assert (E : B # 10000 == inject_Z B * (1#10000)) by (unfold Qeq; simpl; lia).
  assert (Hy : (0 <= round_half_even (x * 10000) <= B)%Z)
    by (apply round_half_even_bound; lra).
  split; unfold Qle; simpl; nia.
Qed.

Lemma extract_bounds (clf : classifier) (s : image_signals) :
  signals_wf s ->
  in01 (b_falconsai (extract clf s)) /\ in01 (b_nudenet (extract clf s)) /\
  in01 (b_nsfw (extract clf s)) /\ in01 (b_face (extract clf s)) /\
  in01 (b_aesthetic (extract clf s)) /\
  (0 <= det_score (b_mosaic (extract clf s)) /\ det_score (b_mosaic (extract clf s)) <= 13#10) /\
  (0 <= det_score (b_pov (extract clf s)) /\ det_score (b_pov (extract clf s)) <= 11#10).
Proof.
  intros [Hf Hn [HW HH] Hfa Ha Hm].
  pose proof (score_falconsai_in01 (falconsai_loaded clf) _ Hf) as Hf'.
  pose proof (score_nudenet_in01 (nudenet_loaded clf) _ Hn) as Hn'.
  pose proof (face_score_in01 (face_cascade_loaded clf) _ _ _ HW HH Hfa) as Hface.
  unfold extract. cbv zeta.
  destruct (calculate_face_score _ _ _ _) as [fsc fd]. simpl in Hface |- *.
  split; [exact Hf' | split; [exact Hn' | split; [apply fuse_in01; auto | ]]].
  split; [exact Hface | split; [apply aesthetic_in01, Ha | split]].
  - destruct (skip_mosaic clf); [simpl; lra | apply detect_mosaic_bound, Hm].
  - destruct (skip_pov clf); [simpl; lra | apply detect_pov_bound].
Qed.

Lemma round4_in (x u : Q) (B : Z) :
  u == B # 10000 -> 0 <= x -> x <= u -> 0 <= round4 x /\ round4 x <= u.
Proof.
  intros Hu H0 H1. rewrite Hu in H1 |- *. apply round4_bound; assumption.
Qed.

(** ** Claim C4 *)

(** C4 (counterexample): the POV example image gets pov_score 1.1 in its
    result, outside [0,1]. *)
Lemma scores_in_unit_counterexample :
  signals_wf pov_example /\
  dict_get (classify default_thresholds all_models "pov.jpg" (Loaded pov_example)) "pov_score"
  = Some (VFloat (11000 # 10000)) /\ 1 < 11000 # 10000.
Proof.
  split; [ | split; [vm_compute; reflexivity | vm_compute; reflexivity]].
  split; simpl; unfold in01.
  - repeat constructor; simpl; lra.
  - repeat constructor; simpl; lra.
  - lia.
  - repeat constructor; lia.
  - lra.
  - repeat constructor; lia.
Qed.

(** C4 (amended): given well-formed library outputs, every score of a
    per-image result (nsfw, face, aesthetic, falconsai, nudenet, mosaic, pov)
    is a finite rational and lies in [0,1], except mosaic_score, in [0,1.3],
    and pov_score, in [0,1.1]. *)
Theorem classify_scores_bounded (cfg : thresholds) (clf : classifier) (path : string)
    (img : loaded_image) (Hwf : loaded_wf img) (k : string) (q : Q)
    (Hk : In k score_keys)
    (Hq : dict_get (classify cfg clf path img) k = Some (VFloat q)) :
  0 <= q /\ q <= score_upper k.
Proof.
  destruct img as [e | | s].
  - simpl in Hk.
    repeat (destruct Hk as [Hk | Hk]; [subst k; vm_compute in Hq; injection Hq as <-;
                                         vm_compute; split; discriminate | ]).
    contradiction.
  - simpl in Hk.
    repeat (destruct Hk as [Hk | Hk];
            [subst k; vm_compute in Hq; try discriminate; injection Hq as <-;
             vm_compute; split; discriminate | ]).
    contradiction.
  - simpl in Hwf.
    destruct (extract_bounds clf s Hwf)
      as ([Hf0 Hf1] & [Hn0 Hn1] & [Hs0 Hs1] & [Hc0 Hc1] & [Ha0 Ha1] & [Hm0 Hm1] & [Hp0 Hp1]).
    unfold classify in Hq. cbv zeta in Hq.
    destruct (bundle_tier cfg (extract clf s)) as [c r].
    simpl in Hk.
    repeat (destruct Hk as [Hk | Hk];
            [subst k; simpl in Hq; injection Hq as <-; unfold score_upper; simpl;
             first [ apply (round4_in _ _ 10000); [reflexivity | lra | lra]
                   | apply (round4_in _ _ 13000); [reflexivity | lra | lra]
                   | apply (round4_in _ _ 11000); [reflexivity | lra | lra] ] | ]).
    contradiction.
Qed.

Lemma classify_scores_bounded_witness :
  loaded_wf (Loaded pov_example) /\ In "nsfw_score" score_keys /\
  dict_get (classify default_thresholds all_models "pov.jpg" (Loaded pov_example)) "nsfw_score"
  = Some (VFloat (round4 (9#10))) /\
  (0 <= round4 (9#10) /\ round4 (9#10) <= score_upper "nsfw_score").
Proof.
  assert (Hwf : loaded_wf (Loaded pov_example)).
  { split; simpl; unfold in01.
    - repeat constructor; simpl; lra.
    - repeat constructor; simpl; lra.
    - lia.
    - repeat constructor; lia.
    - lra.
    - repeat constructor; lia. }
  assert (Hk : In "nsfw_score" score_keys) by (simpl; auto).
  assert (Hq : dict_get (classify default_thresholds all_models "pov.jpg" (Loaded pov_example))
                 "nsfw_score" = Some (VFloat (round4 (9#10)))) by (vm_compute; reflexivity).
  split; [exact Hwf | split; [exact Hk | split; [exact Hq | ]]].
  exact (classify_scores_bounded default_thresholds all_models "pov.jpg" (Loaded pov_example)
           Hwf "nsfw_score" (round4 (9#10)) Hk Hq).
Defined.

(** ** Deduplication *)

Lemma count_bits_nonneg (n : nat) (x : Z) : (0 <= count_bits n x)%Z.
Proof.
  induction n; simpl; [lia | ].
  destruct (Z.testbit x (Z.of_nat n)); simpl; lia.
Qed.

Lemma count_bits_zero (n : nat) : count_bits n 0 = 0%Z.
Proof. induction n; simpl; [reflexivity | rewrite Z.testbit_0_l, IHn; reflexivity]. Qed.

Lemma hamming_nonneg (a b : Z) : (0 <= hamming a b)%Z.
Proof. apply count_bits_nonneg. Qed.

Lemma hamming_refl (a : Z) : hamming a a = 0%Z.
Proof. unfold hamming. rewrite Z.lxor_nilpotent. apply count_bits_zero. Qed.

Section Dedup.
Variable hash_of : string -> option Z.
Variable threshold : Z.

Abbreviation pairs l := (map (fun path => (path, hash_of path)) l).

Lemma mark_similar_spec (h : Z) (rest : list (string * option Z)) (U : gset string)
      (x : string) :
    x ∈ mark_similar threshold h rest U
    <-> x ∈ U \/ exists o, In (x, Some o) rest /\ (hamming h o <= threshold)%Z.
  Proof.
    revert U. induction rest as [ | [op oh] rest IH]; intros U; simpl.
    - split; [auto | intros [Hx | [o [[] _]]]; exact Hx].
    - destruct (decide (op ∈ U)) as [Hop | Hop].
      + rewrite IH. split.
        * intros [Hx | [o [Ho Hd]]]; [left; exact Hx | right; exists o; auto].
        * intros [Hx | [o [[Ho | Ho] Hd]]]; [left; exact Hx | | right; exists o; auto].
          injection Ho as -> ->. left; exact Hop.
      + destruct oh as [o | ].
        * destruct (Z.leb_spec (hamming h o) threshold) as [Hd | Hd].
          -- rewrite IH. rewrite elem_of_union, elem_of_singleton. split.
             ++ intros [[-> | Hx] | [o' [Ho Hd']]];
                  [right; exists o; auto | left; exact Hx | right; exists o'; auto].
             ++ intros [Hx | [o' [[Ho | Ho] Hd']]];
                  [left; right; exact Hx | | right; exists o'; auto].
                injection Ho as -> ->. left; left; reflexivity.
          -- rewrite IH. split.
             ++ intros [Hx | [o' [Ho Hd']]]; [left; exact Hx | right; exists o'; auto].
             ++ intros [Hx | [o' [[Ho | Ho] Hd']]]; [left; exact Hx | | right; exists o'; auto].
                injection Ho as -> ->. lia.
        * rewrite IH. split.
          -- intros [Hx | [o' [Ho Hd']]]; [left; exact Hx | right; exists o'; auto].
          -- intros [Hx | [o' [[Ho | Ho] Hd']]]; [left; exact Hx | discriminate | right; exists o'; auto].
  Qed.

Lemma mark_similar_mono (h : Z) (rest : list (string * option Z)) (U : gset string) :
    U ⊆ mark_similar threshold h rest U.
  Proof. intros x Hx. apply mark_similar_spec. left; exact Hx. Qed.

Lemma in_pairs (x : string) (o : Z) (l : list string) :
    In (x, Some o) (pairs l) <-> In x l /\ hash_of x = Some o.
  Proof.
    rewrite in_map_iff. split.
    - intros [y [Hy Hin]]. injection Hy as -> Ho. split; [exact Hin | exact Ho].
    - intros [Hin Ho]. exists x. rewrite Ho. auto.
  Qed.

Lemma scan_refines_spec (l : list string) (U : gset string) (R : list Z) :
    NoDup (hashed_paths hash_of l) \/ (0 <= threshold)%Z ->
    (forall x, x ∈ U -> hash_of x <> None) ->
    (forall p h, In p l -> hash_of p = Some h ->
       (p ∈ U <-> existsb (fun r => (hamming r h <=? threshold)%Z) R = true)) ->
    dedup_scan threshold (pairs l) U = spec_dedup hash_of threshold R l.
  Proof.
    revert U R. induction l as [ | p rest IH]; intros U R Hnd HU Hinv; [reflexivity | ].
    simpl. destruct (hash_of p) as [h | ] eqn:Hp.
    - assert (Hnd' : NoDup (hashed_paths hash_of rest) \/ (0 <= threshold)%Z).
      { destruct Hnd as [Hnd | Ht]; [left | right; exact Ht].
        unfold hashed_paths in Hnd. simpl in Hnd. rewrite Hp in Hnd.
        inversion Hnd; assumption. }
      pose proof (Hinv p h (or_introl eq_refl) Hp) as Hph.
      destruct (decide (p ∈ U)) as [Hin | Hin].
      + rewrite (proj1 Hph Hin). apply IH; auto.
        intros q hq Hq Hhq. apply Hinv; [right; exact Hq | exact Hhq].
      + destruct (existsb _ R) eqn:Ex; [exfalso; apply Hin, Hph; reflexivity | ].
        f_equal. apply IH; [exact Hnd' | | ].
        * intros x Hx. apply mark_similar_spec in Hx.
          destruct Hx as [Hx | [o [Ho _]]].
          -- apply elem_of_union in Hx. destruct Hx as [Hx | Hx].
             ++ apply elem_of_singleton in Hx. subst x. rewrite Hp. discriminate.
             ++ apply HU, Hx.
          -- apply in_pairs in Ho. rewrite (proj2 Ho). discriminate.
        * intros q hq Hq Hhq.
          rewrite mark_similar_spec, existsb_app, elem_of_union, elem_of_singleton.
          simpl. rewrite orb_false_r.
          rewrite (Hinv q hq (or_intror Hq) Hhq).
          split.
          -- intros [[-> | Hx] | [o [Ho Hd]]].
             ++ rewrite Hp in Hhq. injection Hhq as <-. rewrite hamming_refl.
                destruct Hnd as [Hnd | Ht].
                ** exfalso. unfold hashed_paths in Hnd. simpl in Hnd. rewrite Hp in Hnd.
                   inversion Hnd as [ | ? ? Hnot _]. apply Hnot.
                   apply list_elem_of_In, filter_In. rewrite Hp. auto.
                ** apply orb_true_iff. right. apply Z.leb_le. exact Ht.
             ++ rewrite Hx. reflexivity.
             ++ apply in_pairs in Ho. destruct Ho as [_ Ho]. rewrite Hhq in Ho.
                injection Ho as <-. apply orb_true_iff. right. apply Z.leb_le. exact Hd.
          -- intros Hor. apply orb_true_iff in Hor. destruct Hor as [Hx | Hx].
             ++ left; right; exact Hx.
             ++ right. exists hq. split; [apply in_pairs; auto | apply Z.leb_le; exact Hx].
    - assert (Hpu : p ∉ U) by (intros Hx; apply (HU p Hx); exact Hp).
      destruct (decide (p ∈ U)) as [Hin | _]; [contradiction | ].
      f_equal. apply IH; auto.
      + destruct Hnd as [Hnd | Ht]; [left | right; exact Ht].
        unfold hashed_paths in Hnd |- *. simpl in Hnd. rewrite Hp in Hnd. exact Hnd.
      + intros q hq Hq Hhq. apply Hinv; [right; exact Hq | exact Hhq].
  Qed.

Lemma scan_output_fresh (l : list string) (U : gset string) :
    (forall x, In x (dedup_scan threshold (pairs l) U) -> hash_of x <> None -> x ∉ U) /\
    NoDup (hashed_paths hash_of (dedup_scan threshold (pairs l) U)).
  Proof.
    revert U. induction l as [ | p rest IH]; intros U; simpl.
    - split; [intros x [] | constructor].
    - destruct (decide (p ∈ U)) as [Hin | Hin]; [apply IH | ].
      destruct (hash_of p) as [h | ] eqn:Hp.
      + set (U' := mark_similar threshold h (pairs rest) ({[p]} ∪ U)).
        assert (Hsub : {[p]} ∪ U ⊆ U') by apply mark_similar_mono.
        destruct (IH U') as [HA HB]. split.
        * intros x [<- | Hx] Hh; [exact Hin | ].
          intros HxU. apply (HA x Hx Hh). apply Hsub. set_solver.
        * unfold hashed_paths. simpl. rewrite Hp. constructor; [ | exact HB].
          intros Hpin. apply list_elem_of_In, filter_In in Hpin. destruct Hpin as [Hpin _].
          apply (HA p Hpin); [rewrite Hp; discriminate | ]. apply Hsub. set_solver.
      + destruct (IH U) as [HA HB]. split.
        * intros x [<- | Hx] Hh; [contradiction | exact (HA x Hx Hh)].
        * unfold hashed_paths. simpl. rewrite Hp. exact HB.
  Qed.

Lemma spec_dedup_idem (R : list Z) (l : list string) :
    spec_dedup hash_of threshold R (spec_dedup hash_of threshold R l)
    = spec_dedup hash_of threshold R l.
  Proof.
    revert R. induction l as [ | p rest IH]; intros R; [reflexivity | ]. simpl.
    destruct (hash_of p) as [h | ] eqn:Hp.
    - destruct (existsb _ R) eqn:Ex; [apply IH | ].
      simpl. rewrite Hp, Ex. f_equal. apply IH.
    - simpl. rewrite Hp. f_equal. apply IH.
  Qed.

Lemma spec_dedup_keep_all (R : list Z) (l : list string) :
    (threshold < 0)%Z \/ (forall p, hash_of p = None) ->
    spec_dedup hash_of threshold R l = l.
  Proof.
    intros Hc. revert R. induction l as [ | p rest IH]; intros R; [reflexivity | ]. simpl.
    destruct (hash_of p) as [h | ] eqn:Hp; [ | f_equal; apply IH].
    destruct Hc as [Ht | Hn]; [ | rewrite Hn in Hp; discriminate].
    assert (Ex : existsb (fun r => (hamming r h <=? threshold)%Z) R = false).
    { apply not_true_iff_false. intros Ex. apply existsb_exists in Ex.
      destruct Ex as [r [_ Hr]]. apply Z.leb_le in Hr.
      pose proof (hamming_nonneg r h). lia. }
    rewrite Ex. f_equal. apply IH.
  Qed.
End Dedup.

Lemma NoDup_list_filter (f : string -> bool) (l : list string) :
  NoDup l -> NoDup (List.filter f l).
Proof.
  induction 1 as [ | x l Hx Hl IH]; simpl; [constructor | ].
  destruct (f x); [ | exact IH].
  constructor; [ | exact IH].
  intros Hin. apply list_elem_of_In, filter_In in Hin. apply Hx, list_elem_of_In, Hin.
Qed.

Lemma deduplicate_images_scan (avail : bool) (phash : string -> option Z)
    (files : list string) (t : Z) :
  deduplicate_images avail phash files t
  = if avail
    then dedup_scan t (map (fun path => (path, compute_phash avail phash path)) files) ∅
    else files.
Proof.
  unfold deduplicate_images. destruct avail; [simpl | reflexivity].
  destruct (length files <=? 1)%nat eqn:Hlen; [ | reflexivity].
  destruct files as [ | p [ | q r]]; [reflexivity | | simpl in Hlen; discriminate].
  simpl. destruct (decide (p ∈ (∅ : gset string))) as [Hin | _]; [set_solver | ].
  destruct (phash p); reflexivity.
Qed.

(** C6: on a list of distinct paths (as a directory listing gives), or for
    any non-negative threshold, [deduplicate_images] is exactly the
    left-to-right scan of the spec: an image without a hash is kept, an image
    with a hash is dropped iff its Hamming distance to some earlier kept
    representative is at most the threshold (ties dropped), and otherwise it
    is kept and becomes a representative. *)
Theorem dedup_matches_spec (avail : bool) (phash : string -> option Z)
    (files : list string) (t : Z) :
  NoDup files \/ (0 <= t)%Z ->
  deduplicate_images avail phash files t
  = spec_dedup (compute_phash avail phash) t [] files.
Proof.
  intros Hc. rewrite deduplicate_images_scan. destruct avail.
  - apply scan_refines_spec.
    + destruct Hc as [Hnd | Ht]; [left; apply NoDup_list_filter, Hnd | right; exact Ht].
    + intros x Hx. set_solver.
    + intros p h _ _. simpl. split; [set_solver | discriminate].
  - symmetry. apply spec_dedup_keep_all. right. reflexivity.
Qed.

(** C7: [deduplicate_images] is idempotent, for every list of paths and
    every threshold: deduplicating its output again (same per-path hashes)
    returns that output unchanged, elements and order alike. *)
Theorem dedup_idempotent (avail : bool) (phash : string -> option Z)
    (files : list string) (t : Z) :
  deduplicate_images avail phash (deduplicate_images avail phash files t) t
  = deduplicate_images avail phash files t.
Proof.
  set (hs := compute_phash avail phash).
  set (D := deduplicate_images avail phash files t).
  assert (HD : D = if avail then dedup_scan t (map (fun path => (path, hs path)) files) ∅
                   else files) by apply deduplicate_images_scan.
  rewrite deduplicate_images_scan. destruct avail; [ | reflexivity].
  assert (HnD : NoDup (hashed_paths hs D)).
  { rewrite HD. apply (scan_output_fresh hs t files ∅). }
  assert (Hspec : dedup_scan t (map (fun path => (path, hs path)) D) ∅ = spec_dedup hs t [] D).
  { apply scan_refines_spec; [left; exact HnD | intros x Hx; set_solver | ].
    intros p h _ _. simpl. split; [set_solver | discriminate]. }
  change (dedup_scan t (map (fun path => (path, hs path)) D) ∅ = D).
  rewrite Hspec. destruct (Z.lt_ge_cases t 0) as [Ht | Ht].
  - apply spec_dedup_keep_all. left. exact Ht.
  - assert (HDs : D = spec_dedup hs t [] files).
    { rewrite HD. apply scan_refines_spec; [right; exact Ht | intros x Hx; set_solver | ].
      intros p h _ _. simpl. split; [set_solver | discriminate]. }
    rewrite HDs. apply spec_dedup_idem.
Qed.

(** ** Load failures *)

(** C8 (as stated, refuted): when PIL's [Image.open] raises on a file that
    is not an image, the result's reason is the exception text, not
    "Failed to load image". *)
Lemma load_failure_reason_counterexample :
  dict_get (classify default_thresholds all_models "/imgs/broken.jpg"
              (LoadRaises "cannot identify image file '/imgs/broken.jpg'")) "reason"
  <> Some (VStr "Failed to load image").
Proof. vm_compute. discriminate. Qed.

(** C8 (amended): an image that fails to load, either because [cv2.imread]
    returns None or because loading raises an exception, gets classification
    "error" and nsfw_score 1.0, with reason "Failed to load image" in the
    first case and the exception text in the second; the batch goes on, and
    when the message is non-empty (or imread returned None) the batch step
    counts the image in error_count and in no tier count. *)
Theorem load_failure_recorded (cfg : thresholds) (clf : classifier)
    (load : string -> loaded_image) (a : batch_acc) (path : string) :
  load path = CvReadNone \/ (exists msg, load path = LoadRaises msg) ->
  let r := classify cfg clf path (load path) in
  let a' := batch_step cfg clf load a path in
  dict_get r "classification" = Some (VStr "error") /\
  dict_get r "nsfw_score" = Some (VFloat 1) /\
  dict_get r "reason"
    = Some (VStr (match load path with LoadRaises msg => msg | _ => "Failed to load image" end)) /\
  (load path = CvReadNone \/ (exists msg, load path = LoadRaises msg /\ msg <> "") ->
   error_count a' = (error_count a + 1)%Z /\
   super_safe_count a' = super_safe_count a /\
   safe_count a' = safe_count a /\
   nsfw_count a' = nsfw_count a).
Proof.
  intros Hload r a'. subst r a'. unfold batch_step.
  destruct Hload as [Hn | [msg Hr]].
  - rewrite Hn. repeat split; reflexivity.
  - rewrite Hr. split; [reflexivity | split; [reflexivity | split; [reflexivity | ]]].
    intros [Hc | [m [Hm Hmsg]]]; [discriminate Hc | ].
    injection Hm as <-.
    unfold classify, exception_result, get_str, get_bool. simpl.
    assert (Ht : str_truthy msg = true).
    { unfold str_truthy. apply negb_true_iff, String.eqb_neq. exact Hmsg. }
    rewrite Ht. repeat split; reflexivity.
Qed.

Lemma load_failure_recorded_witness :
  (fun _ : string => LoadRaises "cannot identify image file") "/imgs/broken.jpg"
    = LoadRaises "cannot identify image file" /\
  dict_get (classify default_thresholds all_models "/imgs/broken.jpg"
              (LoadRaises "cannot identify image file")) "reason"
    = Some (VStr "cannot identify image file") /\
  error_count (batch_step default_thresholds all_models
                 (fun _ => LoadRaises "cannot identify image file") acc0
                 "/imgs/broken.jpg") = 1%Z.
Proof.
  assert (Hl : (fun _ : string => LoadRaises "cannot identify image file") "/imgs/broken.jpg"
               = LoadRaises "cannot identify image file") by reflexivity.
  destruct (load_failure_recorded default_thresholds all_models
              (fun _ => LoadRaises "cannot identify image file") acc0
              "/imgs/broken.jpg" (or_intror (ex_intro _ _ Hl))) as [_ [_ [Hr Hc]]].
  split; [exact Hl | split; [exact Hr | ]].
  destruct Hc as [He _].
  - right. exists "cannot identify image file". split; [exact Hl | discriminate].
  - exact He.
Defined.

(** ** The stats schema of the report *)

(** C9: the report's stats carry every key of the schema when the input has
    at least one image file, but for an input without image files the stats
    lack "original_images" and "duplicates_removed". *)
Theorem stats_schema_keys (cfg : thresholds) (models_loaded : bool * bool * bool)
    (imagehash_available : bool) (phash : string -> option Z)
    (load : string -> loaded_image) (input_path : string)
    (skip_mosaic_flag skip_pov_flag skip_dedup : bool) (dedup_threshold : Z)
    (processing_time : Q) :
  let report files := classify_batch cfg models_loaded imagehash_available phash load
                        input_path files skip_mosaic_flag skip_pov_flag skip_dedup
                        dedup_threshold processing_time in
  (forall p rest, stats_keys (report (p :: rest)) = STATS_SCHEMA) /\
  ~ In "original_images" (stats_keys (report [])) /\
  ~ In "duplicates_removed" (stats_keys (report [])).
Proof.
  intros report. subst report. split; [ | split; simpl; intuition discriminate].
  intros p rest. unfold classify_batch.
  destruct models_loaded as [[fl nl] cl]. destruct skip_dedup; reflexivity.
Qed.

Lemma dedup_matches_spec_witness :
  (0 <= PHASH_THRESHOLD)%Z /\
  deduplicate_images true dedup_example_hash dedup_example_files PHASH_THRESHOLD
  = spec_dedup (compute_phash true dedup_example_hash) PHASH_THRESHOLD [] dedup_example_files /\
  deduplicate_images true dedup_example_hash dedup_example_files PHASH_THRESHOLD
  = ["a.jpg"; "c.jpg"; "d.jpg"].
Proof.
  split; [vm_compute; discriminate | ].
  split; [apply dedup_matches_spec; right; vm_compute; discriminate | vm_compute; reflexivity].
Defined.

(** ** Further properties of deduplicate_images *)

Lemma map_fst_pairs (f : string -> option Z) (l : list string) :
  map fst (map (fun path => (path, f path)) l) = l.
Proof. induction l as [ | p l IH]; simpl; [reflexivity | rewrite IH; reflexivity]. Qed.

Lemma dedup_scan_sublist (t : Z) (ps : list (string * option Z)) (U : gset string) :
  dedup_scan t ps U `sublist_of` map fst ps.
Proof.
  revert U. induction ps as [ | [p h] ps IH]; intros U; simpl; [constructor | ].
  destruct (decide (p ∈ U)); [apply sublist_cons, IH | ].
  destruct h; apply sublist_skip, IH.
Qed.

Lemma spec_kept_far (hs : string -> option Z) (t : Z) (l : list string) (R : list Z)
    (q : string) (hq r : Z) :
  In q (spec_dedup hs t R l) -> hs q = Some hq -> In r R -> (t < hamming r hq)%Z.
Proof.
  revert R. induction l as [ | a l IH]; intros R Hq Hh Hr; simpl in Hq; [contradiction | ].
  destruct (hs a) as [ha | ] eqn:Ha.
  - destruct (existsb _ R) eqn:Ex; [exact (IH R Hq Hh Hr) | ].
    destruct Hq as [<- | Hq].
    + rewrite Ha in Hh. injection Hh as <-.
      destruct (Z.lt_ge_cases t (hamming r ha)) as [Hlt | Hge]; [exact Hlt | ].
      exfalso. apply not_true_iff_false in Ex. apply Ex, existsb_exists.
      exists r. split; [exact Hr | apply Z.leb_le; exact Hge].
    + apply (IH (R ++ [ha])%list Hq Hh). apply in_or_app. left. exact Hr.
  - destruct Hq as [<- | Hq]; [rewrite Ha in Hh; discriminate | exact (IH R Hq Hh Hr)].
Qed.

Lemma spec_separated (hs : string -> option Z) (t : Z) (l : list string) (R : list Z)
    (l1 l2 l3 : list string) (p q : string) (hp hq : Z) :
  spec_dedup hs t R l = (l1 ++ p :: l2 ++ q :: l3)%list ->
  hs p = Some hp -> hs q = Some hq -> (t < hamming hp hq)%Z.
Proof.
  revert R l1. induction l as [ | a l IH]; intros R l1 Hl Hp Hq; simpl in Hl.
  - destruct l1; discriminate.
  - destruct (hs a) as [ha | ] eqn:Ha.
    + destruct (existsb _ R) eqn:Ex; [exact (IH R l1 Hl Hp Hq) | ].
      destruct l1 as [ | b l1]; simpl in Hl; injection Hl as Hab Hl.
      * subst a. rewrite Hp in Ha. injection Ha as <-.
        apply (spec_kept_far hs t l (R ++ [hp])%list q); [ | exact Hq | ].
        -- rewrite Hl. apply in_or_app. right. left. reflexivity.
        -- apply in_or_app. right. left. reflexivity.
      * exact (IH (R ++ [ha])%list l1 Hl Hp Hq).
    + destruct l1 as [ | b l1]; simpl in Hl; injection Hl as Hab Hl.
      * subst a. rewrite Hp in Ha. discriminate.
      * exact (IH R l1 Hl Hp Hq).
Qed.

Lemma spec_dropped (hs : string -> option Z) (t : Z) (l1 l2 : list string) (R : list Z)
    (p : string) :
  ~ In p (spec_dedup hs t R (l1 ++ p :: l2)%list) ->
  exists h, hs p = Some h /\
    ((exists r, In r R /\ (hamming r h <= t)%Z) \/
     (exists q hq, In q l1 /\ In q (spec_dedup hs t R (l1 ++ p :: l2)%list) /\
                   hs q = Some hq /\ (hamming hq h <= t)%Z)).
Proof.
  revert R. induction l1 as [ | a l1 IH]; intros R Hnot; simpl in Hnot |- *.
  - destruct (hs p) as [h | ] eqn:Hp; [ | exfalso; apply Hnot; left; reflexivity].
    exists h. split; [reflexivity | left].
    destruct (existsb _ R) eqn:Ex; [ | exfalso; apply Hnot; left; reflexivity].
    apply existsb_exists in Ex. destruct Ex as [r [Hr Hle]].
    exists r. split; [exact Hr | apply Z.leb_le; exact Hle].
  - destruct (hs a) as [ha | ] eqn:Ha.
    + destruct (existsb _ R) eqn:Ex.
      * destruct (IH R Hnot) as [h [Hp [HR | [q [hq [Hq1 [Hq2 Hq3]]]]]]];
          exists h; split; auto.
        right. exists q, hq. auto.
      * assert (Hnot' : ~ In p (spec_dedup hs t (R ++ [ha])%list (l1 ++ p :: l2)%list))
          by (intros Hin; apply Hnot; right; exact Hin).
        destruct (IH _ Hnot') as [h [Hp [[r [Hr Hle]] | [q [hq [Hq1 [Hq2 Hq3]]]]]]];
          exists h; split; auto.
        -- apply in_app_or in Hr. destruct Hr as [Hr | [<- | []]].
           ++ left. exists r. auto.
           ++ right. exists a, ha. split; [left; reflexivity | ].
              split; [left; reflexivity | auto].
        -- right. exists q, hq. split; [right; exact Hq1 | ]. split; [right; exact Hq2 | auto].
    + assert (Hnot' : ~ In p (spec_dedup hs t R (l1 ++ p :: l2)%list))
        by (intros Hin; apply Hnot; right; exact Hin).
      destruct (IH _ Hnot') as [h [Hp [HR | [q [hq [Hq1 [Hq2 Hq3]]]]]]];
        exists h; split; auto.
      right. exists q, hq. split; [right; exact Hq1 | ]. split; [right; exact Hq2 | auto].
Qed.

(** [deduplicate_images] is the spec scan when the input has no repeated
    path or the threshold is non-negative. *)
Lemma dedup_is_spec (avail : bool) (phash : string -> option Z) (files : list string) (t : Z) :
  NoDup files \/ (0 <= t)%Z ->
  deduplicate_images avail phash files t = spec_dedup (compute_phash avail phash) t [] files.
Proof.
  intros Hc. rewrite deduplicate_images_scan. destruct avail.
  - apply scan_refines_spec.
    + destruct Hc as [Hnd | Ht]; [left; apply NoDup_list_filter, Hnd | right; exact Ht].
    + intros x Hx. set_solver.
    + intros p h _ _. simpl. split; [set_solver | discriminate].
  - symmetry. apply spec_dedup_keep_all. right. reflexivity.
Qed.

Lemma deduplicate_images_sublist (avail : bool) (phash : string -> option Z)
    (files : list string) (t : Z) :
  deduplicate_images avail phash files t `sublist_of` files.
Proof.
  rewrite deduplicate_images_scan. destruct avail; [ | reflexivity].
  pose proof (dedup_scan_sublist t (map (fun path => (path, compute_phash true phash path)) files) ∅)
    as H.
  rewrite map_fst_pairs in H. exact H.
Qed.

Lemma deduplicate_images_first (avail : bool) (phash : string -> option Z) (p : string)
    (rest : list string) (t : Z) :
  exists kept, deduplicate_images avail phash (p :: rest) t = p :: kept.
Proof.
  rewrite deduplicate_images_scan. destruct avail; [ | eexists; reflexivity].
  simpl. destruct (decide (p ∈ (∅ : gset string))) as [Hin | _]; [set_solver | ].
  destruct (phash p); eexists; reflexivity.
Qed.

(** Extra: the output of [deduplicate_images] is a subsequence of its
    input: it only removes paths, never adds, repeats or reorders one. *)
Theorem dedup_sublist (avail : bool) (phash : string -> option Z) (files : list string)
    (t : Z) :
  deduplicate_images avail phash files t `sublist_of` files.
Proof. apply deduplicate_images_sublist. Qed.

(** Extra: the first image of a non-empty input is always kept, as the
    first element of the output. *)
Theorem dedup_keeps_first (avail : bool) (phash : string -> option Z) (p : string)
    (rest : list string) (t : Z) :
  exists kept, deduplicate_images avail phash (p :: rest) t = p :: kept.
Proof. apply deduplicate_images_first. Qed.

(** Extra: any two images kept by [deduplicate_images] that both have a hash
    are more than the threshold apart (Hamming distance from the earlier to
    the later one), for every input and every threshold. *)
Theorem dedup_kept_far_apart (avail : bool) (phash : string -> option Z)
    (files : list string) (t : Z) (l1 l2 l3 : list string) (p q : string) (hp hq : Z) :
  deduplicate_images avail phash files t = (l1 ++ p :: l2 ++ q :: l3)%list ->
  compute_phash avail phash p = Some hp -> compute_phash avail phash q = Some hq ->
  (t < hamming hp hq)%Z.
Proof.
  intros HD Hp Hq. destruct (Z.lt_ge_cases t 0) as [Ht | Ht].
  - pose proof (hamming_nonneg hp hq). lia.
  - rewrite dedup_is_spec in HD by (right; exact Ht).
    exact (spec_separated _ t files [] l1 l2 l3 p q hp hq HD Hp Hq).
Qed.

(** Extra: on an input without repeated paths, every image that
    [deduplicate_images] drops has a hash, and some image before it in the
    input is kept, has a hash, and is within the threshold of it. *)
Theorem dedup_dropped_has_earlier_match (avail : bool) (phash : string -> option Z)
    (l1 l2 : list string) (p : string) (t : Z) :
  NoDup (l1 ++ p :: l2)%list ->
  ~ In p (deduplicate_images avail phash (l1 ++ p :: l2)%list t) ->
  exists h q hq, compute_phash avail phash p = Some h /\ In q l1 /\
    In q (deduplicate_images avail phash (l1 ++ p :: l2)%list t) /\
    compute_phash avail phash q = Some hq /\ (hamming hq h <= t)%Z.
Proof.
  intros Hnd Hnot. rewrite dedup_is_spec in Hnot |- * by (left; exact Hnd).
  destruct (spec_dropped _ t l1 l2 [] p Hnot) as [h [Hp [[r [[] _]] | [q [hq Hq]]]]].
  exists h, q, hq. tauto.
Qed.

Lemma dedup_kept_far_apart_witness :
  deduplicate_images true dedup_example_hash dedup_example_files PHASH_THRESHOLD
  = ([] ++ "a.jpg" :: [] ++ "c.jpg" :: ["d.jpg"])%list /\
  (PHASH_THRESHOLD < hamming 0 511)%Z.
Proof.
  assert (HD : deduplicate_images true dedup_example_hash dedup_example_files PHASH_THRESHOLD
               = ([] ++ "a.jpg" :: [] ++ "c.jpg" :: ["d.jpg"])%list) by (vm_compute; reflexivity).
  split; [exact HD | ].
  exact (dedup_kept_far_apart true dedup_example_hash dedup_example_files PHASH_THRESHOLD
           [] [] ["d.jpg"] "a.jpg" "c.jpg" 0 511 HD eq_refl eq_refl).
Defined.

Lemma dedup_dropped_has_earlier_match_witness :
  exists h q hq, compute_phash true dedup_example_hash "b.jpg" = Some h /\ In q ["a.jpg"] /\
    In q (deduplicate_images true dedup_example_hash (["a.jpg"] ++ "b.jpg" :: ["c.jpg"; "d.jpg"])%list
            PHASH_THRESHOLD) /\
    compute_phash true dedup_example_hash q = Some hq /\ (hamming hq h <= PHASH_THRESHOLD)%Z.
Proof.
  apply dedup_dropped_has_earlier_match.
  - apply (bool_decide_unpack _). vm_compute. reflexivity.
  - vm_compute. intuition discriminate.
Defined.

(** ** get_image_files *)

Lemma str_lt_trans (a b c : string) :
  String.compare a b = Lt -> String.compare b c = Lt -> String.compare a c = Lt.
Proof.
  intros Hab Hbc. apply OrderedTypeEx.String_as_OT.cmp_lt.
  apply (OrderedTypeEx.String_as_OT.lt_trans a b c);
    apply OrderedTypeEx.String_as_OT.cmp_lt; assumption.
Qed.

Lemma str_lt_irrefl (a : string) : String.compare a a <> Lt.
Proof.
  assert (H : String.compare a a = Eq) by (apply OrderedTypeEx.String_as_OT.cmp_eq; reflexivity).
  rewrite H. discriminate.
Qed.

Lemma insert_sorted_In (x y : string) (l : list string) :
  In y (insert_sorted x l) <-> y = x \/ In y l.
Proof.
  induction l as [ | z l IH]; simpl; [intuition congruence | ].
  destruct (String.compare x z) eqn:Hc; simpl.
  - apply String.compare_eq_iff in Hc. subst z. intuition congruence.
  - intuition congruence.
  - rewrite IH. intuition congruence.
Qed.

Lemma sorted_set_In (y : string) (l : list string) : In y (sorted_set l) <-> In y l.
Proof.
  induction l as [ | x l IH]; simpl; [tauto | ].
  rewrite insert_sorted_In, IH. split; intros [H | H]; auto.
Qed.

Lemma insert_sorted_sorted (x : string) (l : list string) :
  StronglySorted (fun a b => String.compare a b = Lt) l ->
  StronglySorted (fun a b => String.compare a b = Lt) (insert_sorted x l).
Proof.
  induction l as [ | z l IH]; intros Hs; simpl.
  - constructor; [constructor | constructor].
  - inversion Hs as [ | ? ? Hl Hf]; subst.
    destruct (String.compare x z) eqn:Hc.
    + exact Hs.
    + constructor; [exact Hs | ]. constructor; [exact Hc | ].
      rewrite Forall_forall in Hf |- *. intros w Hw. apply (str_lt_trans x z w Hc), Hf, Hw.
    + constructor; [apply IH, Hl | ].
      rewrite Forall_forall in Hf |- *. intros w Hw. apply list_elem_of_In, insert_sorted_In in Hw.
      destruct Hw as [-> | Hw]; [ | apply Hf, list_elem_of_In, Hw].
      rewrite String.compare_antisym, Hc. reflexivity.
Qed.

Lemma sorted_set_sorted (l : list string) :
  StronglySorted (fun a b => String.compare a b = Lt) (sorted_set l).
Proof.
  induction l as [ | x l IH]; simpl; [constructor | apply insert_sorted_sorted, IH].
Qed.

Lemma strongly_sorted_NoDup (l : list string) :
  StronglySorted (fun a b => String.compare a b = Lt) l -> NoDup l.
Proof.
  induction 1 as [ | a l Hl IH Hf]; constructor; [ | exact IH].
  intros Hin. rewrite Forall_forall in Hf.
  exact (str_lt_irrefl a (Hf a Hin)).
Qed.

(** Extra: for a directory, get_image_files returns, in strictly increasing
    order (so without repetition), exactly the paths [dir/name] of the
    entries whose name ends in one of .jpg, .jpeg, .png, .webp written all
    in lower case or all in upper case. *)
Theorem get_image_files_dir (fs : string -> fs_entry) (input_path : string)
    (names : list string) :
  fs input_path = FsDir names ->
  StronglySorted (fun a b => String.compare a b = Lt) (get_image_files fs input_path) /\
  (forall x, In x (get_image_files fs input_path) <->
     exists n ext, In n names /\ In ext IMAGE_EXTENSIONS /\
       (str_ends_with n ext = true \/ str_ends_with n (str_upper ext) = true) /\
       x = path_join input_path n).
Proof.
  intros Hfs. unfold get_image_files. rewrite Hfs.
  split; [apply sorted_set_sorted | ]. intros x. rewrite sorted_set_In, in_flat_map. split.
  - intros [ext [Hext Hx]]. apply in_app_or in Hx.
    destruct Hx as [Hx | Hx]; apply in_map_iff in Hx; destruct Hx as [n [<- Hn]];
      apply filter_In in Hn; destruct Hn as [Hn He]; exists n, ext; auto.
  - intros [n [ext [Hn [Hext [He ->]]]]]. exists ext. split; [exact Hext | ].
    apply in_or_app. destruct He as [He | He]; [left | right].
    + apply in_map_iff. exists n. split; [reflexivity | apply filter_In; auto].
    + apply in_map_iff. exists n. split; [reflexivity | apply filter_In; auto].
Qed.

Lemma get_image_files_dir_witness :
  get_image_files example_dir "imgs" = ["imgs/a.jpg"; "imgs/b.PNG"; "imgs/d.webp"] /\
  StronglySorted (fun a b => String.compare a b = Lt) (get_image_files example_dir "imgs").
Proof.
  split; [vm_compute; reflexivity | ].
  apply (proj1 (get_image_files_dir example_dir "imgs"
                  ["b.PNG"; "notes.txt"; "a.jpg"; "c.Jpg"; "d.webp"] eq_refl)).
Defined.

Lemma get_image_files_NoDup (fs : string -> fs_entry) (input_path : string) :
  NoDup (get_image_files fs input_path).
Proof.
  unfold get_image_files. destruct (fs input_path).
  - apply NoDup_singleton.
  - apply strongly_sorted_NoDup, sorted_set_sorted.
  - constructor.
Qed.

(** Extra: on the file list that classify_batch builds with get_image_files,
    [deduplicate_images] is exactly the left-to-right scan of
    [spec_dedup], for every threshold: the precondition of the general
    statement (no repeated path) always holds there. *)
Theorem get_image_files_dedup_is_spec (fs : string -> fs_entry) (input_path : string)
    (avail : bool) (phash : string -> option Z) (t : Z) :
  deduplicate_images avail phash (get_image_files fs input_path) t
  = spec_dedup (compute_phash avail phash) t [] (get_image_files fs input_path).
Proof. apply dedup_is_spec. left. apply get_image_files_NoDup. Qed.

(** ** Flags, tiers and counters of a per-image result *)

(** Extra: in every per-image result, is_super_safe is true exactly when the
    classification is "super_safe", an "nsfw" classification always comes
    with is_safe false, and the classification is one of "super_safe",
    "safe", "nsfw" and "error". *)
Theorem classify_flags_consistent (cfg : thresholds) (clf : classifier) (path : string)
    (img : loaded_image) :
  (get_bool (classify cfg clf path img) "is_super_safe" = true
   <-> get_str (classify cfg clf path img) "classification" = "super_safe") /\
  (get_str (classify cfg clf path img) "classification" = "nsfw"
   -> get_bool (classify cfg clf path img) "is_safe" = false) /\
  In (get_str (classify cfg clf path img) "classification") ["super_safe"; "safe"; "nsfw"; "error"].
Proof.
  destruct img as [e | | s].
  - unfold classify, exception_result, get_bool, get_str. simpl.
    split; [split; discriminate | split; [discriminate | simpl; tauto]].
  - unfold classify, load_failed_result, get_bool, get_str. simpl.
    split; [split; discriminate | split; [discriminate | simpl; tauto]].
  - unfold classify, bundle_tier, tier_of, is_super_safe, is_safe.
    set (b := extract clf s). clearbody b.
    destruct (detected (b_mosaic b)), (detected (b_pov b)),
      (Qltb (b_nsfw b) (SUPER_SAFE_THRESHOLD cfg)), (Qltb (MIN_FACE_SCORE cfg) (b_face b)),
      (Qltb (b_nsfw b) (NSFW_THRESHOLD cfg));
      vm_compute; intuition discriminate.
Qed.

(** Extra: the batch loop counts a decoded image by its flags, which agree
    with its classification except for one case: a "super_safe" image is
    counted in super_safe_count, an "nsfw" image in nsfw_count, and a "safe"
    image in safe_count when its fused score is below NSFW_THRESHOLD but in
    nsfw_count when it is not (a POV detection overrode the score). *)
Theorem batch_step_counts_by_tier (cfg : thresholds) (clf : classifier)
    (load : string -> loaded_image) (a : batch_acc) (path : string) (s : image_signals) :
  load path = Loaded s ->
  (get_str (classify cfg clf path (Loaded s)) "classification" = "super_safe" ->
   (super_safe_count (batch_step cfg clf load a path), safe_count (batch_step cfg clf load a path),
    nsfw_count (batch_step cfg clf load a path), error_count (batch_step cfg clf load a path))
   = (super_safe_count a + 1, safe_count a, nsfw_count a, error_count a)%Z) /\
  (get_str (classify cfg clf path (Loaded s)) "classification" = "nsfw" ->
   (super_safe_count (batch_step cfg clf load a path), safe_count (batch_step cfg clf load a path),
    nsfw_count (batch_step cfg clf load a path), error_count (batch_step cfg clf load a path))
   = (super_safe_count a, safe_count a, nsfw_count a + 1, error_count a)%Z) /\
  (get_str (classify cfg clf path (Loaded s)) "classification" = "safe" ->
   b_nsfw (extract clf s) < NSFW_THRESHOLD cfg ->
   (super_safe_count (batch_step cfg clf load a path), safe_count (batch_step cfg clf load a path),
    nsfw_count (batch_step cfg clf load a path), error_count (batch_step cfg clf load a path))
   = (super_safe_count a, safe_count a + 1, nsfw_count a, error_count a)%Z) /\
  (get_str (classify cfg clf path (Loaded s)) "classification" = "safe" ->
   NSFW_THRESHOLD cfg <= b_nsfw (extract clf s) ->
   (super_safe_count (batch_step cfg clf load a path), safe_count (batch_step cfg clf load a path),
    nsfw_count (batch_step cfg clf load a path), error_count (batch_step cfg clf load a path))
   = (super_safe_count a, safe_count a, nsfw_count a + 1, error_count a)%Z).
Proof.
  intros Hload. unfold batch_step. rewrite Hload.
  unfold classify, bundle_tier, tier_of, is_super_safe, is_safe.
  set (b := extract clf s). clearbody b.
  destruct (detected (b_mosaic b)), (detected (b_pov b)),
    (Qltb_reflect (b_nsfw b) (SUPER_SAFE_THRESHOLD cfg)),
    (Qltb_reflect (MIN_FACE_SCORE cfg) (b_face b)),
    (Qltb_reflect (b_nsfw b) (NSFW_THRESHOLD cfg));
    (split; [ | split; [ | split]]); intros Hc; try intros Hq;
    vm_compute in Hc; try discriminate Hc; try lra; vm_compute; reflexivity.
Qed.

Lemma batch_step_counts_by_tier_witness :
  get_str (classify default_thresholds all_models "pov.jpg" (Loaded pov_example)) "classification"
    = "safe" /\
  NSFW_THRESHOLD default_thresholds <= b_nsfw (extract all_models pov_example) /\
  nsfw_count (batch_step default_thresholds all_models (fun _ => Loaded pov_example) acc0 "pov.jpg")
    = 1%Z.
Proof.
  assert (Hc : get_str (classify default_thresholds all_models "pov.jpg" (Loaded pov_example))
                 "classification" = "safe") by (vm_compute; reflexivity).
  assert (Hn : NSFW_THRESHOLD default_thresholds <= b_nsfw (extract all_models pov_example))
    by (vm_compute; discriminate).
  split; [exact Hc | split; [exact Hn | ]].
  destruct (batch_step_counts_by_tier default_thresholds all_models (fun _ => Loaded pov_example)
              acc0 "pov.jpg" pov_example eq_refl) as [_ [_ [_ H4]]].
  exact (f_equal (fun x : Z * Z * Z * Z => let '(_, _, n, _) := x in n) (H4 Hc Hn)).
Defined.

(** ** The counters of classify_batch *)

Lemma batch_step_inv (cfg : thresholds) (clf : classifier) (load : string -> loaded_image)
    (a : batch_acc) (path : string) :
  let a' := batch_step cfg clf load a path in
  (super_safe_count a' + safe_count a' + nsfw_count a' + error_count a'
   = super_safe_count a + safe_count a + nsfw_count a + error_count a + 1)%Z /\
  (super_safe_count a <= super_safe_count a')%Z /\ (safe_count a <= safe_count a')%Z /\
  (error_count a <= error_count a')%Z /\
  (mosaic_count a <= mosaic_count a')%Z /\ (pov_count a <= pov_count a')%Z /\
  (nsfw_count a - mosaic_count a <= nsfw_count a' - mosaic_count a')%Z /\
  (safe_count a + nsfw_count a - pov_count a <= safe_count a' + nsfw_count a' - pov_count a')%Z.
Proof.
  intros a'. subst a'. unfold batch_step. destruct (load path) as [e | | s].
  - unfold classify, exception_result, get_str, get_bool. simpl.
    destruct (str_truthy e); simpl; lia.
  - simpl. lia.
  - unfold classify, is_super_safe, is_safe.
    set (b := extract clf s). clearbody b.
    destruct (bundle_tier cfg b) as [c rs].
    destruct (detected (b_mosaic b)), (detected (b_pov b)),
      (Qltb (b_nsfw b) (SUPER_SAFE_THRESHOLD cfg)), (Qltb (MIN_FACE_SCORE cfg) (b_face b)),
      (Qltb (b_nsfw b) (NSFW_THRESHOLD cfg)); simpl; lia.
Qed.

Lemma batch_fold_inv (cfg : thresholds) (clf : classifier) (load : string -> loaded_image)
    (l : list string) (a : batch_acc) :
  let a' := fold_left (batch_step cfg clf load) l a in
  (super_safe_count a' + safe_count a' + nsfw_count a' + error_count a'
   = super_safe_count a + safe_count a + nsfw_count a + error_count a + Z.of_nat (length l))%Z /\
  (super_safe_count a <= super_safe_count a')%Z /\ (safe_count a <= safe_count a')%Z /\
  (error_count a <= error_count a')%Z /\
  (mosaic_count a <= mosaic_count a')%Z /\ (pov_count a <= pov_count a')%Z /\
  (nsfw_count a - mosaic_count a <= nsfw_count a' - mosaic_count a')%Z /\
  (safe_count a + nsfw_count a - pov_count a <= safe_count a' + nsfw_count a' - pov_count a')%Z.
Proof.
  revert a. induction l as [ | p l IH]; intros a; simpl; [lia | ].
  pose proof (batch_step_inv cfg clf load a p) as Hs. simpl in Hs.
  specialize (IH (batch_step cfg clf load a p)). simpl in IH. lia.
Qed.

(** Extra: for every non-empty input, the four tier counters of the stats
    add up to total_images, none is negative, mosaic_count never exceeds
    nsfw_count, and pov_count never exceeds safe_count + nsfw_count. *)
Theorem batch_stats_counts (cfg : thresholds) (models_loaded : bool * bool * bool)
    (imagehash_available : bool) (phash : string -> option Z)
    (load : string -> loaded_image) (input_path : string) (p : string) (rest : list string)
    (skip_mosaic_flag skip_pov_flag skip_dedup : bool) (dedup_threshold : Z)
    (processing_time : Q) :
  exists ss sf ns er mc pc tot,
    let r := classify_batch cfg models_loaded imagehash_available phash load input_path
               (p :: rest) skip_mosaic_flag skip_pov_flag skip_dedup dedup_threshold
               processing_time in
    stat r "super_safe_count" = Some (VInt ss) /\ stat r "safe_count" = Some (VInt sf) /\
    stat r "nsfw_count" = Some (VInt ns) /\ stat r "error_count" = Some (VInt er) /\
    stat r "mosaic_count" = Some (VInt mc) /\ stat r "pov_count" = Some (VInt pc) /\
    stat r "total_images" = Some (VInt tot) /\
    (ss + sf + ns + er = tot)%Z /\
    (0 <= ss)%Z /\ (0 <= sf)%Z /\ (0 <= er)%Z /\
    (0 <= mc <= ns)%Z /\ (0 <= pc <= sf + ns)%Z.
Proof.
  unfold classify_batch. cbv beta iota zeta.
  destruct (if negb skip_dedup then _ else _) as [files dr].
  destruct models_loaded as [[fl nl] cl]. cbv beta iota zeta.
  match goal with
  | |- context [fold_left (batch_step ?c ?k ?ld) files acc0] =>
      pose proof (batch_fold_inv c k ld files acc0) as HI;
      set (A := fold_left (batch_step c k ld) files acc0) in *
  end.
  simpl in HI.
  exists (super_safe_count A), (safe_count A), (nsfw_count A), (error_count A),
    (mosaic_count A), (pov_count A), (Z.of_nat (length files)).
  repeat split; try reflexivity; lia.
Qed.

(** Extra: for every non-empty input, 1 <= total_images <= original_images,
    total_images + duplicates_removed = original_images, original_images is
    the number of input files, and duplicates_removed is 0 when dedup is
    skipped. *)
Theorem batch_stats_sizes (cfg : thresholds) (models_loaded : bool * bool * bool)
    (imagehash_available : bool) (phash : string -> option Z)
    (load : string -> loaded_image) (input_path : string) (p : string) (rest : list string)
    (skip_mosaic_flag skip_pov_flag skip_dedup : bool) (dedup_threshold : Z)
    (processing_time : Q) :
  exists tot orig dr,
    let r := classify_batch cfg models_loaded imagehash_available phash load input_path
               (p :: rest) skip_mosaic_flag skip_pov_flag skip_dedup dedup_threshold
               processing_time in
    stat r "total_images" = Some (VInt tot) /\ stat r "original_images" = Some (VInt orig) /\
    stat r "duplicates_removed" = Some (VInt dr) /\
    orig = Z.of_nat (length (p :: rest)) /\ (1 <= tot <= orig)%Z /\ (tot + dr = orig)%Z /\
    (skip_dedup = true -> dr = 0%Z).
Proof.
  unfold classify_batch. destruct models_loaded as [[fl nl] cl].
  destruct skip_dedup; simpl negb; cbv beta iota zeta.
  - exists (Z.of_nat (length (p :: rest))), (Z.of_nat (length (p :: rest))), 0%Z.
    repeat split; try reflexivity; simpl; lia.
  - set (D := deduplicate_images imagehash_available phash (p :: rest) dedup_threshold).
    assert (Hsub : (length D <= length (p :: rest))%nat)
      by apply sublist_length, deduplicate_images_sublist.
    assert (Hne : (1 <= length D)%nat).
    { destruct (deduplicate_images_first imagehash_available phash p rest dedup_threshold)
        as [kept Hk].
      unfold D. rewrite Hk. simpl. lia. }
    exists (Z.of_nat (length D)), (Z.of_nat (length (p :: rest))),
      (Z.of_nat (length (p :: rest)) - Z.of_nat (length D))%Z.
    repeat split; try reflexivity; try lia; intros H; discriminate H.
Qed.

Lemma result_scores_in01 (cfg : thresholds) (clf : classifier) (path : string)
    (img : loaded_image) :
  loaded_wf img ->
  (0 <= get_float (classify cfg clf path img) "nsfw_score" <= 1) /\
  (0 <= get_float (classify cfg clf path img) "face_score" <= 1).
Proof.
  destruct img as [e | | s]; intros Hwf.
  - unfold classify, exception_result, get_float. simpl. lra.
  - unfold classify, load_failed_result, get_float. simpl. lra.
  - assert (Hn : get_float (classify cfg clf path (Loaded s)) "nsfw_score"
                 = round4 (b_nsfw (extract clf s))) by classify_field.
    assert (Hf : get_float (classify cfg clf path (Loaded s)) "face_score"
                 = round4 (b_face (extract clf s))) by classify_field.
    rewrite Hn, Hf.
    destruct (extract_bounds clf s Hwf) as [_ [_ [[Hn0 Hn1] [[Hf0 Hf1] _]]]].
    assert (Hu : (1 : Q) == 10000 # 10000) by reflexivity.
    split; apply (round4_in _ 1 10000); assumption.
Qed.

Lemma batch_fold_totals (cfg : thresholds) (clf : classifier) (load : string -> loaded_image)
    (Hwf : forall p, loaded_wf (load p)) (l : list string) (a : batch_acc) (k : Z) :
  0 <= total_nsfw_score a <= inject_Z k -> 0 <= total_face_score a <= inject_Z k ->
  let a' := fold_left (batch_step cfg clf load) l a in
  0 <= total_nsfw_score a' <= inject_Z (k + Z.of_nat (length l)) /\
  0 <= total_face_score a' <= inject_Z (k + Z.of_nat (length l)).
Proof.
  revert a k. induction l as [ | p l IH]; intros a k Hn Hf; cbn [fold_left length].
  - rewrite Z.add_0_r. auto.
  - replace (k + Z.of_nat (S (length l)))%Z with ((k + 1) + Z.of_nat (length l))%Z by lia.
    destruct (result_scores_in01 cfg clf p (load p) (Hwf p)).
    apply IH; unfold batch_step; cbv zeta; cbn [total_nsfw_score total_face_score];
      rewrite inject_Z_plus; change (inject_Z 1) with (1#1); lra.
Qed.

Lemma avg_round4_in01 (tot : Q) (n : Z) :
  0 <= tot <= inject_Z n ->
  0 <= round4 (if (0 <? n)%Z then tot / inject_Z n else 0) <= 1.
Proof.
  intros [H0 H1]. assert (Hu : (1 : Q) == 10000 # 10000) by reflexivity.
  destruct (Z.ltb_spec 0 n) as [Hn | Hn].
  - assert (Hq : 0 < inject_Z n) by (change 0 with (inject_Z 0); rewrite <- Zlt_Qlt; exact Hn).
    apply (round4_in _ 1 10000); [exact Hu | | ].
    + apply Qle_shift_div_l; [exact Hq | lra].
    + apply Qle_shift_div_r; [exact Hq | lra].
  - apply (round4_in _ 1 10000); [exact Hu | lra | lra].
Qed.

(** Extra: when every image that loads gives well-formed library outputs,
    the report's avg_nsfw_score and avg_face_score lie in [0,1]. *)
Theorem batch_avg_scores_in01 (cfg : thresholds) (models_loaded : bool * bool * bool)
    (imagehash_available : bool) (phash : string -> option Z)
    (load : string -> loaded_image) (input_path : string) (image_files : list string)
    (skip_mosaic_flag skip_pov_flag skip_dedup : bool) (dedup_threshold : Z)
    (processing_time : Q) :
  (forall path, loaded_wf (load path)) ->
  exists an af,
    let r := classify_batch cfg models_loaded imagehash_available phash load input_path
               image_files skip_mosaic_flag skip_pov_flag skip_dedup dedup_threshold
               processing_time in
    stat r "avg_nsfw_score" = Some (VFloat an) /\ stat r "avg_face_score" = Some (VFloat af) /\
    0 <= an <= 1 /\ 0 <= af <= 1.
Proof.
  intros Hwf. unfold classify_batch. destruct image_files as [ | p rest].
  - exists 0, 0. repeat split; try reflexivity; lra.
  - cbv beta iota zeta.
    destruct (if negb skip_dedup then _ else _) as [files dr].
    destruct models_loaded as [[fl nl] cl]. cbv beta iota zeta.
    match goal with
    | |- context [fold_left (batch_step ?c ?k ?ld) files acc0] =>
        pose proof (batch_fold_totals c k ld Hwf files acc0 0) as HT;
        set (A := fold_left (batch_step c k ld) files acc0) in *
    end.
    destruct HT as [HTn HTf]; [cbn; change (inject_Z 0) with (0#1); lra | cbn; change (inject_Z 0) with (0#1); lra | ].
    rewrite Z.add_0_l in HTn, HTf.
    eexists _, _. split; [reflexivity | split; [reflexivity | ]].
    split; apply avg_round4_in01; assumption.
Qed.

Lemma batch_avg_scores_in01_witness :
  (forall path : string, loaded_wf ((fun _ => Loaded pov_example) path)) /\
  exists an af,
    let r := classify_batch default_thresholds (true, true, true) true dedup_example_hash
               (fun _ => Loaded pov_example) "imgs" ["a.jpg"; "b.jpg"] false false false
               PHASH_THRESHOLD 1 in
    stat r "avg_nsfw_score" = Some (VFloat an) /\ stat r "avg_face_score" = Some (VFloat af) /\
    0 <= an <= 1 /\ 0 <= af <= 1.
Proof.
  assert (Hwf : forall path : string, loaded_wf ((fun _ => Loaded pov_example) path)).
  { intros _. split; simpl; unfold in01.
    - repeat constructor; simpl; lra.
    - repeat constructor; simpl; lra.
    - lia.
    - repeat constructor; lia.
    - lra.
    - repeat constructor; lia. }
  split; [exact Hwf | ].
  exact (batch_avg_scores_in01 default_thresholds (true, true, true) true dedup_example_hash
           (fun _ => Loaded pov_example) "imgs" ["a.jpg"; "b.jpg"] false false false
           PHASH_THRESHOLD 1 Hwf).
Defined.

(** ** Images without a face *)

Lemma face_score_no_face (loaded : bool) (w h : Z) (out : call (list face_box)) :
  (loaded = false \/ out = Returns [] \/ exists e, out = Raises e) ->
  calculate_face_score loaded w h out = (0, []).
Proof.
  intros [H | [H | [e H]]]; subst; unfold calculate_face_score;
    [reflexivity | destruct loaded; reflexivity | destruct loaded; reflexivity].
Qed.

Lemma extract_no_face (clf : classifier) (s : image_signals) :
  calculate_face_score (face_cascade_loaded clf) (width s) (height s) (faces_out s) = (0, []) ->
  b_face (extract clf s) = 0 /\ detected (b_pov (extract clf s)) = false.
Proof.
  intros H. unfold extract. cbv zeta. rewrite H. simpl.
  split; [reflexivity | destruct (skip_pov clf); reflexivity].
Qed.

(** Extra: when the face cascade is not loaded, or finds no face, or raises,
    and MIN_FACE_SCORE is not negative, the image is never super_safe and no
    POV composition is detected. *)
Theorem no_face_never_super_safe (cfg : thresholds) (clf : classifier) (path : string)
    (s : image_signals) :
  (face_cascade_loaded clf = false \/ faces_out s = Returns [] \/
   exists e, faces_out s = Raises e) ->
  0 <= MIN_FACE_SCORE cfg ->
  get_bool (classify cfg clf path (Loaded s)) "is_super_safe" = false /\
  get_bool (classify cfg clf path (Loaded s)) "pov_detected" = false /\
  get_str (classify cfg clf path (Loaded s)) "classification" <> "super_safe".
Proof.
  intros Hno Hmin.
  destruct (extract_no_face clf s (face_score_no_face _ _ _ _ Hno)) as [Hf Hp].
  rewrite classification_is_spec_tier, Hf, Hp.
  unfold classify. cbv zeta.
  destruct (bundle_tier cfg (extract clf s)) as [c r].
  unfold get_bool, get_str, dict_get. simpl.
  rewrite Hf, Hp. unfold is_super_safe, spec_tier.
  assert (Hq : Qltb (MIN_FACE_SCORE cfg) 0 = false)
    by (destruct (Qltb_reflect (MIN_FACE_SCORE cfg) 0); [lra | reflexivity]).
  rewrite Hq, andb_false_r, !andb_false_l.
  split; [reflexivity | split; [reflexivity | ]].
  destruct (detected (b_mosaic (extract clf s))); [discriminate | ].
  qcases; discriminate.
Qed.

(** ** The Laplacian part of the mosaic detector *)

Lemma mosaic_best_ge (stats : list (Z * Z * Z)) (best : Q) (details : string) :
  best <= fst (mosaic_best stats best details).
Proof.
  revert best details. induction stats as [ | [[bs m] k] rest IH]; intros best details.
  - simpl. lra.
  - simpl. destruct (10 <? k)%Z; [ | apply IH].
    qcase; [ | apply IH].
    match goal with |- _ <= fst (mosaic_best rest ?r ?d) =>
      pose proof (IH r d) end. lra.
Qed.

Lemma detect_mosaic_laplacian (w h : Z) (a : mosaic_analysis) :
  (100 <= w)%Z -> (100 <= h)%Z -> (1000 < skin_pixels a)%Z -> 500 < skin_lap_var a ->
  detected (detect_mosaic w h (Returns a)) = true.
Proof.
  intros Hw Hh Hs Hv. unfold detect_mosaic.
  rewrite (proj2 (Z.ltb_ge w 100) Hw), (proj2 (Z.ltb_ge h 100) Hh). simpl orb.
  pose proof (mosaic_best_ge (block_stats a) 0 "") as Hge.
  destruct (mosaic_best (block_stats a) 0 "") as [best det]. simpl in Hge.
  rewrite (proj2 (Z.ltb_lt 1000 _) Hs).
  assert (Hl : Qltb 500 (skin_lap_var a) = true)
    by (destruct (Qltb_reflect 500 (skin_lap_var a)); [reflexivity | lra]).
  rewrite Hl. simpl andb. cbv zeta.
  change (skin_lap_var a / 2000) with (skin_lap_var a * (1#2000)).
  assert (Hlap : 1#4 < py_min 1 (skin_lap_var a * (1#2000))) by (unfold py_min; qcases).
  set (lap := py_min 1 (skin_lap_var a * (1#2000))) in *. clearbody lap.
  assert (Hmx : best + lap * (3#10) <= py_max best (best + lap * (3#10)))
    by (unfold py_max; qcases).
  set (mx := py_max best (best + lap * (3#10))) in *. clearbody mx.
  unfold MOSAIC_THRESHOLD.
  destruct (Qltb_reflect (best * (1#2)) lap); simpl; qcases; reflexivity.
Qed.

(** Extra: on an image of at least 100x100 pixels, when the mosaic detector
    runs and finds more than 1000 skin pixels whose Laplacian variance exceeds
    500, mosaic is detected and the image is classified nsfw, whatever the
    block statistics are (even with no blocky window at all). *)
Theorem sharp_skin_detected_as_mosaic (cfg : thresholds) (clf : classifier) (path : string)
    (s : image_signals) (a : mosaic_analysis) :
  skip_mosaic clf = false -> (100 <= width s)%Z -> (100 <= height s)%Z ->
  mosaic_in s = Returns a -> (1000 < skin_pixels a)%Z -> 500 < skin_lap_var a ->
  get_bool (classify cfg clf path (Loaded s)) "mosaic_detected" = true /\
  get_str (classify cfg clf path (Loaded s)) "classification" = "nsfw".
Proof.
  intros Hsk Hw Hh Ha Hs Hv.
  assert (Hd : detected (b_mosaic (extract clf s)) = true).
  { assert (E : b_mosaic (extract clf s) =
                if skip_mosaic clf then (false, 0, "skipped")
                else detect_mosaic (width s) (height s) (mosaic_in s))
      by (unfold extract; cbv zeta; destruct (calculate_face_score _ _ _ _); reflexivity).
    rewrite E, Hsk, Ha. apply detect_mosaic_laplacian; assumption. }
  rewrite classify_mosaic_detected, classification_is_spec_tier, Hd.
  split; reflexivity.
Qed.

(** ** POV needs a large, centered, high face *)

Lemma largest_face_In (b : face_box) (l : list face_box) : In (largest_face b l) (b :: l).
Proof.
  revert b. induction l as [ | f l IH]; intros b; simpl; [left; reflexivity | ].
  destruct (box_area b <? box_area f)%Z.
  - destruct (IH f) as [H | H]; auto.
  - destruct (IH b) as [H | H]; auto.
Qed.

Lemma largest_face_max (b : face_box) (l : list face_box) :
  forall f, In f (b :: l) -> (box_area f <= box_area (largest_face b l))%Z.
Proof.
  revert b. induction l as [ | g l IH]; intros b f Hf; simpl.
  - destruct Hf as [<- | []]. lia.
  - destruct (Z.ltb_spec (box_area b) (box_area g)) as [Hlt | Hge].
    + destruct Hf as [<- | Hf]; [specialize (IH g g (or_introl eq_refl)); lia | ].
      apply IH. exact Hf.
    + destruct Hf as [<- | [<- | Hf]].
      * apply IH; left; reflexivity.
      * specialize (IH b b (or_introl eq_refl)). lia.
      * apply IH; right; exact Hf.
Qed.

(** Extra: a POV composition is only detected when the largest face (the
    first box of maximal area) covers at least 15% of the image, its center
    is at most 0.4 half-widths from the vertical center line, and its center
    lies in the upper half of the image. *)
Theorem pov_requires_large_centered_face (w h : Z) (fd : list face_box) (sk : call pov_skin) :
  detected (detect_pov w h fd sk) = true ->
  exists fx fy fw fh,
    In (fx, fy, fw, fh) fd /\
    (forall f, In f fd -> (box_area f <= fw * fh)%Z) /\
    15#100 <= inject_Z (fw * fh) / inject_Z (h * w) /\
    Qabs (inject_Z fx + inject_Z fw / 2 - inject_Z w / 2) / (inject_Z w / 2) <= 2#5 /\
    (inject_Z fy + inject_Z fh / 2) / inject_Z h <= 1#2.
Proof.
  intros H. destruct fd as [ | f0 fs]; [discriminate H | ].
  unfold detect_pov in H.
  destruct (h * w =? 0)%Z; [discriminate H | ].
  pose proof (largest_face_In f0 fs) as Hin. pose proof (largest_face_max f0 fs) as Hmax.
  destruct (largest_face f0 fs) as [[[fx fy] fw] fh].
  exists fx, fy, fw, fh. split; [exact Hin | split; [exact Hmax | ]].
  cbv zeta in H. revert H.
  destruct (Qltb_reflect (inject_Z (fw * fh) / inject_Z (h * w)) (15#100)) as [H1 | H1];
    [discriminate | ].
  destruct (Qltb_reflect (2#5)
              (Qabs (inject_Z fx + inject_Z fw / 2 - inject_Z w / 2) / (inject_Z w / 2)))
    as [H2 | H2]; [discriminate | ].
  destruct (Qltb_reflect (1#2) ((inject_Z fy + inject_Z fh / 2) / inject_Z h)) as [H3 | H3];
    [discriminate | ].
  destruct sk; [discriminate | ].
  intros _. split; [ | split]; apply Qnot_lt_le; assumption.
Qed.

(** ** Fusion is monotone in the Falconsai score *)

(** Extra: for a fixed NudeNet score, a higher Falconsai score never gives a
    lower combined NSFW score. *)
Theorem fuse_monotone_falconsai (f1 f2 n : Q) :
  f1 <= f2 -> fuse f1 n <= fuse f2 n.
Proof. intros H. unfold fuse. qcases. Qed.

(** ** A silent NudeNet with the default thresholds *)

Lemma extract_nsfw (clf : classifier) (s : image_signals) :
  b_nsfw (extract clf s) = fuse (b_falconsai (extract clf s)) (b_nudenet (extract clf s)).
Proof. unfold extract. cbv zeta. destruct (calculate_face_score _ _ _ _). reflexivity. Qed.

(** Extra: with the default thresholds, when NudeNet scores below 0.25 (the
    combined score is then 0.3 times the Falconsai score), a well-formed image
    is classified nsfw exactly when mosaic is detected, or no POV is detected
    and the Falconsai score is 1. *)
Theorem silent_nudenet_nsfw_iff (clf : classifier) (path : string) (s : image_signals) :
  signals_wf s -> b_nudenet (extract clf s) < 1#4 ->
  (get_str (classify default_thresholds clf path (Loaded s)) "classification" = "nsfw" <->
   detected (b_mosaic (extract clf s)) = true \/
   (detected (b_pov (extract clf s)) = false /\ b_falconsai (extract clf s) == 1)).
Proof.
  intros Hwf Hn.
  destruct (extract_bounds clf s Hwf) as [[Hf0 Hf1] _].
  pose proof (proj1 (fuse_cases (b_falconsai (extract clf s)) (b_nudenet (extract clf s))) Hn)
    as Hfu.
  rewrite classification_is_spec_tier, extract_nsfw.
  unfold spec_tier.
  destruct (detected (b_mosaic (extract clf s))).
  - split; [intros _; left; reflexivity | reflexivity].
  - destruct (detected (b_pov (extract clf s))).
    + split; [discriminate | intros [H | [H _]]; discriminate].
    + simpl. qcases;
        first [ split; [intros _; right; split; [reflexivity | lra] | reflexivity]
              | split; [discriminate | intros [H | [_ H]]; [discriminate | lra]] ].
Qed.

(** ** The block loop of _detect_mosaic *)

Lemma window_step_bounds (ws : window_stats) (c : Z * Z) :
  (fst c <= fst (window_step ws c))%Z /\
  (fst (window_step ws c) - fst c <= snd (window_step ws c) - snd c)%Z /\
  (snd c <= snd (window_step ws c) <= snd c + 1)%Z.
Proof.
  destruct c as [m k]. unfold window_step.
  repeat case_match; simpl; lia.
Qed.

Lemma window_fold_bounds (f : Z -> window_stats) (xs : list Z) (c : Z * Z) :
  let c' := fold_left (fun acc x => window_step (f x) acc) xs c in
  (fst c <= fst c')%Z /\ (fst c' - fst c <= snd c' - snd c)%Z /\
  (snd c <= snd c' <= snd c + Z.of_nat (length xs))%Z.
Proof.
  revert c. induction xs as [ | x xs IH]; intros c; simpl; [lia | ].
  pose proof (window_step_bounds (f x) c) as Hs.
  pose proof (IH (window_step (f x) c)) as Hi. cbv zeta in Hi. lia.
Qed.

Lemma row_fold_bounds (f : Z -> Z -> window_stats) (ys xs : list Z) (c : Z * Z) :
  let c' := fold_left (fun acc y => fold_left (fun acc' x => window_step (f y x) acc') xs acc)
              ys c in
  (fst c <= fst c')%Z /\ (fst c' - fst c <= snd c' - snd c)%Z /\
  (snd c <= snd c' <= snd c + Z.of_nat (length ys) * Z.of_nat (length xs))%Z.
Proof.
  revert c. induction ys as [ | y ys IH]; intros c; simpl; [lia | ].
  pose proof (window_fold_bounds (f y) xs c) as Hs. cbv zeta in Hs.
  pose proof (IH (fold_left (fun acc' x => window_step (f y x) acc') xs c)) as Hi.
  cbv zeta in Hi. lia.
Qed.

Lemma block_scan_bounds (win : Z -> Z -> Z -> window_stats) (w h bs : Z) :
  let '(m, k) := block_scan win w h bs in
  (0 <= m <= k)%Z /\
  (k <= Z.of_nat (length (py_range 0 (h - bs) (bs / 2)))
        * Z.of_nat (length (py_range 0 (w - bs) (bs / 2))))%Z.
Proof.
  pose proof (row_fold_bounds (win bs) (py_range 0 (h - bs) (bs / 2))
                (py_range 0 (w - bs) (bs / 2)) (0, 0)%Z) as H.
  cbv zeta in H. unfold block_scan.
  destruct (fold_left _ _ _) as [m k]. simpl in H. lia.
Qed.

(** Extra: for every block size, the block loop of _detect_mosaic counts at
    most as many mosaic blocks as skin blocks, none negative, and at most one
    skin block per window it visits (rows times columns of the two ranges). *)
Theorem block_scan_counts (win : Z -> Z -> Z -> window_stats) (w h bs : Z) :
  let '(m, k) := block_scan win w h bs in
  (0 <= m <= k)%Z /\
  (k <= Z.of_nat (length (py_range 0 (h - bs) (bs / 2)))
        * Z.of_nat (length (py_range 0 (w - bs) (bs / 2))))%Z.
Proof. apply block_scan_bounds. Qed.

(** Extra: whatever the pixels of the image, when the block statistics come
    from the block loop the mosaic score lies in [0, 1.3]. *)
Theorem block_scan_mosaic_score_bounded (win : Z -> Z -> Z -> window_stats) (w h sp : Z)
    (v : Q) :
  0 <= det_score (detect_mosaic w h
         (Returns {| block_stats := block_stats_of win w h; skin_pixels := sp;
                     skin_lap_var := v |})) <= 13#10.
Proof.
  apply detect_mosaic_bound. simpl.
  apply List.Forall_forall. intros b Hb. unfold block_stats_of in Hb.
  apply List.in_map_iff in Hb. destruct Hb as [bs [<- _]].
  pose proof (block_scan_bounds win w h bs) as H.
  destruct (block_scan win w h bs) as [m k]. lia.
Qed.

Lemma no_face_never_super_safe_witness :
  (face_cascade_loaded all_models = false \/ faces_out falconsai_only_example = Returns [] \/
   exists e, faces_out falconsai_only_example = Raises e) /\
  0 <= MIN_FACE_SCORE default_thresholds /\
  get_bool (classify default_thresholds all_models "f.jpg" (Loaded falconsai_only_example))
    "is_super_safe" = false /\
  get_bool (classify default_thresholds all_models "f.jpg" (Loaded falconsai_only_example))
    "pov_detected" = false /\
  get_str (classify default_thresholds all_models "f.jpg" (Loaded falconsai_only_example))
    "classification" <> "super_safe".
Proof.
  assert (H1 : face_cascade_loaded all_models = false \/
               faces_out falconsai_only_example = Returns [] \/
               exists e, faces_out falconsai_only_example = Raises e)
    by (right; left; reflexivity).
  assert (H2 : 0 <= MIN_FACE_SCORE default_thresholds) by (vm_compute; discriminate).
  split; [exact H1 | split; [exact H2 | ]].
  exact (no_face_never_super_safe default_thresholds all_models "f.jpg" falconsai_only_example
           H1 H2).
Defined.

Lemma sharp_skin_detected_as_mosaic_witness :
  get_bool (classify default_thresholds all_models "s.jpg" (Loaded sharp_skin_example))
    "mosaic_detected" = true /\
  get_str (classify default_thresholds all_models "s.jpg" (Loaded sharp_skin_example))
    "classification" = "nsfw".
Proof.
  apply (sharp_skin_detected_as_mosaic default_thresholds all_models "s.jpg" sharp_skin_example
           {| block_stats := [(8, 0, 200); (12, 0, 100); (16, 0, 50); (20, 0, 30)]%Z;
              skin_pixels := 20000; skin_lap_var := 800 |});
    try reflexivity; try (vm_compute; reflexivity); try (vm_compute; discriminate).
Defined.

Lemma pov_requires_large_centered_face_witness :
  exists fx fy fw fh,
    In (fx, fy, fw, fh) [(250, 50, 500, 500)%Z] /\
    (forall f, In f [(250, 50, 500, 500)%Z] -> (box_area f <= fw * fh)%Z) /\
    15#100 <= inject_Z (fw * fh) / inject_Z (1000 * 1000) /\
    Qabs (inject_Z fx + inject_Z fw / 2 - inject_Z 1000 / 2) / (inject_Z 1000 / 2) <= 2#5 /\
    (inject_Z fy + inject_Z fh / 2) / inject_Z 1000 <= 1#2.
Proof.
  apply (pov_requires_large_centered_face 1000 1000 [(250, 50, 500, 500)%Z] (pov_in pov_example)).
  vm_compute. reflexivity.
Defined.

Lemma fuse_monotone_falconsai_witness :
  fuse (1#2) (1#2) <= fuse (9#10) (1#2).
Proof. apply fuse_monotone_falconsai. vm_compute. discriminate. Defined.

Lemma silent_nudenet_nsfw_iff_witness :
  signals_wf falconsai_only_example /\
  b_nudenet (extract all_models falconsai_only_example) < 1#4 /\
  (get_str (classify default_thresholds all_models "f.jpg" (Loaded falconsai_only_example))
     "classification" = "nsfw" <->
   detected (b_mosaic (extract all_models falconsai_only_example)) = true \/
   (detected (b_pov (extract all_models falconsai_only_example)) = false /\
    b_falconsai (extract all_models falconsai_only_example) == 1)).
Proof.
  assert (Hwf : signals_wf falconsai_only_example).
  { split; simpl; unfold in01.
    - repeat constructor; simpl; lra.
    - constructor.
    - lia.
    - constructor.
    - lra.
    - repeat constructor; lia. }
  assert (Hn : b_nudenet (extract all_models falconsai_only_example) < 1#4)
    by (vm_compute; reflexivity).
  split; [exact Hwf | split; [exact Hn | ]].
  exact (silent_nudenet_nsfw_iff all_models "f.jpg" falconsai_only_example Hwf Hn).
Defined.

(** ** Which Falconsai result counts *)

Lemma falconsai_first_app (l1 : list (string * Q)) (lab : string) (sc : Q)
    (l2 : list (string * Q)) :
  Forall (fun r => str_in (str_lower (fst r)) ["nsfw"; "porn"; "sexy"; "hentai"] = false) l1 ->
  str_in (str_lower lab) ["nsfw"; "porn"; "sexy"; "hentai"] = true ->
  falconsai_first (l1 ++ (lab, sc) :: l2)%list = sc.
Proof.
  intros H1 Hl. induction l1 as [ | [lab' sc'] l1 IH]; cbn [app falconsai_first].
  - rewrite Hl. reflexivity.
  - inversion H1 as [ | ? ? Hx Hr]; subst. cbn [fst] in Hx. rewrite Hx. apply IH, Hr.
Qed.

(** Extra: the Falconsai score is the score of the first result whose label,
    lower-cased, is nsfw, porn, sexy or hentai; later matching results are
    ignored, even with a higher score. *)
Theorem score_falconsai_first_match (l1 : list (string * Q)) (lab : string) (sc : Q)
    (l2 : list (string * Q)) :
  Forall (fun r => str_in (str_lower (fst r)) ["nsfw"; "porn"; "sexy"; "hentai"] = false) l1 ->
  str_in (str_lower lab) ["nsfw"; "porn"; "sexy"; "hentai"] = true ->
  score_falconsai true (Returns (l1 ++ (lab, sc) :: l2)%list) = sc.
Proof. intros H1 Hl. unfold score_falconsai. simpl. apply falconsai_first_app; assumption. Qed.

(** ** Which NudeNet detections count *)

Lemma fold_left_filter_idle {A B : Type} (f : A -> B -> A) (P : B -> bool) (l : list B) (m : A) :
  (forall m d, P d = false -> f m d = m) ->
  fold_left f l m = fold_left f (List.filter P l) m.
Proof.
  intros Hf. revert m. induction l as [ | d l IH]; intros m; [reflexivity | ].
  cbn [fold_left List.filter]. destruct (P d) eqn:E; cbn [fold_left].
  - apply IH.
  - rewrite (Hf m d E). apply IH.
Qed.

Lemma nudenet_fold_filter (l : list (string * Q)) (m : Q) :
  fold_left (fun m '(cls, score) => if str_in cls NSFW_LABELS then py_max m score else m) l m
  = fold_left (fun m '(cls, score) => if str_in cls NSFW_LABELS then py_max m score else m)
      (List.filter (fun d => str_in (fst d) NSFW_LABELS) l) m.
Proof.
  apply fold_left_filter_idle. intros m0 [cls sc] H. cbn [fst] in H. cbv beta iota.
  rewrite H. reflexivity.
Qed.

(** Extra: NudeNet detections whose class is not in NSFW_LABELS (faces,
    covered genitalia, feet, ...) never change the NudeNet score: removing
    them gives the same score. *)
Theorem score_nudenet_ignores_other_labels (loaded : bool) (l : list (string * Q)) :
  score_nudenet loaded (Returns l)
  = score_nudenet loaded (Returns (List.filter (fun d => str_in (fst d) NSFW_LABELS) l)).
Proof.
  unfold score_nudenet. destruct loaded; [ | reflexivity]. simpl.
  destruct l as [ | d l]; [reflexivity | ].
  rewrite (nudenet_fold_filter (d :: l)).
  destruct (List.filter _ (d :: l)); reflexivity.
Qed.

(** ** Batch results are keyed by file name *)

Lemma dict_get_set_eq (d : pydict) (k : string) (v : pyval) :
  dict_get (dict_set d k v) k = Some v.
Proof.
  induction d as [ | [k' v'] d IH]; simpl.
  - rewrite String.eqb_refl. reflexivity.
  - destruct (String.eqb_spec k k') as [-> | Hne]; simpl.
    + rewrite String.eqb_refl. reflexivity.
    + apply String.eqb_neq in Hne. rewrite Hne. exact IH.
Qed.

Lemma dict_get_set_ne (d : pydict) (k k' : string) (v : pyval) :
  k <> k' -> dict_get (dict_set d k' v) k = dict_get d k.
Proof.
  intros Hne. induction d as [ | [k0 v0] d IH]; simpl.
  - apply String.eqb_neq in Hne. rewrite Hne. reflexivity.
  - destruct (String.eqb_spec k' k0) as [-> | Hne']; simpl.
    + apply String.eqb_neq in Hne. rewrite Hne. reflexivity.
    + destruct (String.eqb k k0); [reflexivity | exact IH].
Qed.

Lemma classify_filename (cfg : thresholds) (clf : classifier) (path : string)
    (img : loaded_image) :
  get_str (classify cfg clf path img) "filename" = basename path.
Proof. destruct img; [reflexivity | reflexivity | classify_field]. Qed.

Lemma batch_step_results (cfg : thresholds) (clf : classifier) (load : string -> loaded_image)
    (a : batch_acc) (p : string) :
  results (batch_step cfg clf load a p)
  = dict_set (results a) (basename p) (VDict (classify cfg clf p (load p))).
Proof. unfold batch_step. cbv zeta. rewrite classify_filename. reflexivity. Qed.

Lemma batch_fold_results_other (cfg : thresholds) (clf : classifier)
    (load : string -> loaded_image) (k : string) (l : list string) (a : batch_acc) :
  Forall (fun q => basename q <> k) l ->
  dict_get (results (fold_left (batch_step cfg clf load) l a)) k = dict_get (results a) k.
Proof.
  revert a. induction l as [ | q l IH]; intros a Hl; simpl; [reflexivity | ].
  inversion Hl as [ | ? ? Hq Hr]; subst.
  rewrite (IH _ Hr), batch_step_results. apply dict_get_set_ne. congruence.
Qed.

(** Extra: in the report of a batch run without deduplication, the result
    stored under a file's base name is the classification of the last file
    with that base name: an earlier file with the same name in another
    directory is overwritten, though it is still counted. *)
Theorem batch_results_last_wins (cfg : thresholds) (fl nl cl : bool) (ih : bool)
    (phash : string -> option Z) (load : string -> loaded_image) (input_path : string)
    (l1 : list string) (p : string) (l2 : list string) (sm sp : bool) (thr : Z) (t : Q) :
  Forall (fun q => basename q <> basename p) l2 ->
  exists d,
    dict_get (classify_batch cfg (fl, nl, cl) ih phash load input_path (l1 ++ p :: l2)%list
                sm sp true thr t) "results" = Some (VDict d) /\
    dict_get d (basename p)
    = Some (VDict (classify cfg {| falconsai_loaded := fl; nudenet_loaded := nl;
                                   face_cascade_loaded := cl; skip_mosaic := sm;
                                   skip_pov := sp |} p (load p))).
Proof.
  intros Hl2. unfold classify_batch.
  destruct (l1 ++ p :: l2)%list as [ | x xs] eqn:E; [destruct l1; discriminate E | ].
  rewrite <- E. cbv beta iota zeta.
  eexists. split; [reflexivity | ].
  rewrite fold_left_app. simpl fold_left.
  rewrite batch_fold_results_other by exact Hl2.
  rewrite batch_step_results. apply dict_get_set_eq.
Qed.

Lemma score_falconsai_first_match_witness :
  Forall (fun r => str_in (str_lower (fst r)) ["nsfw"; "porn"; "sexy"; "hentai"] = false)
    [("normal", 9#10)] /\
  str_in (str_lower "NSFW") ["nsfw"; "porn"; "sexy"; "hentai"] = true /\
  score_falconsai true (Returns ([("normal", 9#10)] ++ ("NSFW", 1#10) :: [("porn", 9#10)])%list)
  = 1#10.
Proof.
  assert (H1 : Forall (fun r => str_in (str_lower (fst r)) ["nsfw"; "porn"; "sexy"; "hentai"]
                                = false) [("normal", 9#10)])
    by (repeat constructor).
  assert (H2 : str_in (str_lower "NSFW") ["nsfw"; "porn"; "sexy"; "hentai"] = true)
    by reflexivity.
  split; [exact H1 | split; [exact H2 | ]].
  exact (score_falconsai_first_match [("normal", 9#10)] "NSFW" (1#10) [("porn", 9#10)] H1 H2).
Defined.

Lemma batch_results_last_wins_witness :
  Forall (fun q => basename q <> basename "y/a.jpg") [] /\
  exists d,
    dict_get (classify_batch default_thresholds (true, true, true) true dedup_example_hash
                (fun _ => Loaded pov_example) "imgs" (["x/a.jpg"] ++ "y/a.jpg" :: [])%list
                false false true PHASH_THRESHOLD 1) "results" = Some (VDict d) /\
    dict_get d (basename "y/a.jpg")
    = Some (VDict (classify default_thresholds all_models "y/a.jpg" (Loaded pov_example))).
Proof.
  assert (H : Forall (fun q => basename q <> basename "y/a.jpg") []) by constructor.
  split; [exact H | ].
  exact (batch_results_last_wins default_thresholds true true true true dedup_example_hash
           (fun _ => Loaded pov_example) "imgs" ["x/a.jpg"] "y/a.jpg" [] false false
           PHASH_THRESHOLD 1 H).
Defined.

(** ** Face score for very large faces *)

Lemma fold_py_max_ge (g : face_box -> Q) (l : list face_box) (m : Q) :
  m <= fold_left (fun m f => py_max m (g f)) l m /\
  (forall f, In f l -> g f <= fold_left (fun m f => py_max m (g f)) l m).
Proof.
  revert m. induction l as [ | f l IH]; intros m; simpl; [split; [lra | tauto] | ].
  destruct (IH (py_max m (g f))) as [H1 H2].
  assert (Hm : m <= py_max m (g f) /\ g f <= py_max m (g f)) by (unfold py_max; qcases).
  split; [lra | ].
  intros f' [<- | Hf']; [lra | apply H2, Hf'].
Qed.

Lemma fold_py_max_le (g : face_box -> Q) (l : list face_box) (m u : Q) :
  m <= u -> (forall f, In f l -> g f <= u) ->
  fold_left (fun m f => py_max m (g f)) l m <= u.
Proof.
  revert m. induction l as [ | f l IH]; intros m Hm Hl; simpl; [exact Hm | ].
  apply IH; [ | intros f' Hf'; apply Hl; right; exact Hf'].
  specialize (Hl f (or_introl eq_refl)). unfold py_max. qcases.
Qed.

(** Extra: with the face cascade loaded and a non-empty image, a face covering
    more than half of the image gives face score 0.5, while when the largest
    face covers between 20% and 50% of the image the face score is 1: the
    score is not monotone in the face size. *)
Theorem face_score_large_face (w h : Z) (faces : list face_box) :
  (0 < h * w)%Z ->
  ((exists f, In f faces /\ 1#2 < inject_Z (box_area f) / inject_Z (h * w)) ->
   fst (calculate_face_score true w h (Returns faces)) = 1#2) /\
  ((exists f, In f faces /\ 1#5 <= inject_Z (box_area f) / inject_Z (h * w)) ->
   (forall f, In f faces -> inject_Z (box_area f) / inject_Z (h * w) <= 1#2) ->
   fst (calculate_face_score true w h (Returns faces)) == 1).
Proof.
  intros Ha.
  assert (E : forall f0 fs,
             fst (calculate_face_score true w h (Returns (f0 :: fs)))
             = let mx := fold_left (fun m f => py_max m (inject_Z (box_area f) / inject_Z (h * w)))
                           (f0 :: fs) 0 in
               if Qltb mx (1#100) then mx * 10
               else if Qltb (1#2) mx then 1#2 else py_min 1 (mx * 5)).
  { intros f0 fs. unfold calculate_face_score. cbv zeta.
    rewrite (proj2 (Z.eqb_neq (h * w) 0)) by lia. reflexivity. }
  pose (g := fun f : face_box => inject_Z (box_area f) / inject_Z (h * w)).
  split.
  - intros [f [Hf Hr]]. destruct faces as [ | f0 fs]; [destruct Hf | ].
    rewrite E. cbv zeta.
    destruct (fold_py_max_ge g (f0 :: fs) 0) as [_ Hge].
    specialize (Hge f Hf). unfold g in Hge.
    set (mx := fold_left _ (f0 :: fs) 0) in *.
    qcases; reflexivity.
  - intros [f [Hf Hr]] Hall. destruct faces as [ | f0 fs]; [destruct Hf | ].
    rewrite E. cbv zeta.
    destruct (fold_py_max_ge g (f0 :: fs) 0) as [_ Hge].
    specialize (Hge f Hf).
    pose proof (fold_py_max_le g (f0 :: fs) 0 (1#2) ltac:(lra) Hall) as Hle.
    unfold g in Hge, Hle.
    set (mx := fold_left _ (f0 :: fs) 0) in *.
    unfold py_min. qcases.
Qed.

Lemma face_score_large_face_witness :
  (0 < 100 * 100)%Z /\
  fst (calculate_face_score true 100 100 (Returns [(0, 0, 90, 90)%Z])) = 1#2 /\
  fst (calculate_face_score true 100 100 (Returns [(0, 0, 50, 50)%Z])) == 1.
Proof.
  assert (Ha : (0 < 100 * 100)%Z) by lia.
  split; [exact Ha | split].
  - apply (proj1 (face_score_large_face 100 100 [(0, 0, 90, 90)%Z] Ha)).
    exists (0, 0, 90, 90)%Z. split; [left; reflexivity | vm_compute; reflexivity].
  - apply (proj2 (face_score_large_face 100 100 [(0, 0, 50, 50)%Z] Ha)).
    + exists (0, 0, 50, 50)%Z. split; [left; reflexivity | vm_compute; discriminate].
    + intros f [<- | []]. vm_compute. discriminate.
Defined.
